(** * v6-average-py: federated average of one numeric column

    A shallow embedding of [v6_average_py/__init__.py]: the per-node
    function [partial_average] and the aggregating function
    [central_average], together with the properties the specification
    states about them.

    - Python floats are IEEE 754 binary64 values, taken from the
      executable specification [SpecFloat] (precision 53, [emax] 1024).
    - Python integers are [Z].
    - Exceptions and the calls made to the platform (log notices, directory
      lookup, task creation, waiting for results) are threaded through a
      small monad that returns a result or an exception together with the
      trace of calls made so far. *)

From Stdlib Require Import ZArith List Bool Lia Permutation.
From Stdlib Require Import Floats.SpecFloat.
From stdpp Require Import gmap strings list.

Local Open Scope Z_scope.

(** ** Binary64 floating point *)

Module float64.

Definition prec : Z := 53.
Definition emax : Z := 1024.

Definition emin : Z := SpecFloat.emin prec emax.

Definition t : Type := spec_float.

Definition zero : t := S754_zero false.
Definition nan : t := S754_nan.

Definition add (x y : t) : t := SFadd prec emax x y.
Definition div (x y : t) : t := SFdiv prec emax x y.

(** The nearest binary64 value of an integer (ties to even); an integer
    too large in magnitude rounds to an infinity. *)
Definition of_Z (z : Z) : t := binary_normalize prec emax z 0 false.

Definition isnan (x : t) : bool :=
  match x with S754_nan => true | _ => false end.

Definition is_zero (x : t) : bool :=
  match x with S754_zero _ => true | _ => false end.

Definition is_infinite (x : t) : bool :=
  match x with S754_infinity _ => true | _ => false end.

Definition is_finite (x : t) : bool :=
  match x with S754_zero _ | S754_finite _ _ _ => true | _ => false end.

(** A value with the sign of a zero dropped: what adding it to [0.0]
    gives. *)
Definition unsigned_zero (x : t) : t :=
  match x with S754_zero _ => zero | _ => x end.

End float64.

Abbreviation float := float64.t.

(** ** Python values, exceptions and the effect monad *)

(** The exceptions the two functions can raise.  [KeyError] is what the
    column lookup [df[column_name]] raises for a missing column (the
    specification calls it ColumnNotFoundError); [ZeroDivisionError] and
    [OverflowError] come from the true division [global_sum /
    global_count] of a float by an int. *)
Inductive exception : Type :=
  | KeyError (key : string)
  | ZeroDivisionError
  | OverflowError.

Inductive result (A : Type) : Type :=
  | Ok (a : A)
  | Raise (e : exception).
Arguments Ok {A} a.
Arguments Raise {A} e.

(** The keyword arguments and the input descriptor of a task. *)
Record kwargs : Type := Kwargs {
  kw_column_name : string;
  kw_drop_na : bool
}.

Record task_input : Type := TaskInput {
  method : string;
  kwargs_ : kwargs
}.

(** What the code asks of the platform, in the order it asks it. *)
Inductive event : Type :=
  | Info (msg : string)
  | OrganizationList
  | TaskCreate (input_ : task_input) (organizations : list Z)
  | WaitForResults (task_id : Z).

Definition trace : Type := list event.

Definition M (A : Type) : Type := trace -> result A * trace.

Definition ret {A} (a : A) : M A := fun tr => (Ok a, tr).

Definition bind {A B} (m : M A) (k : A -> M B) : M B :=
  fun tr =>
    match m tr with
    | (Ok a, tr') => k a tr'
    | (Raise e, tr') => (Raise e, tr')
    end.

Definition raise {A} (e : exception) : M A := fun tr => (Raise e, tr).

Definition emit (ev : event) : M unit := fun tr => (Ok tt, tr ++ [ev]).

Definition lift {A} (r : result A) : M A := fun tr => (r, tr).

(** The monad is registered with stdpp's [MRet] and [MBind], whose
    notations [x ← m; k] and [m;; k] the two functions are written in. *)
#[global] Instance M_ret : MRet M := @ret.
#[global] Instance M_bind : MBind M := fun A B k m => bind m k.

(** Running a computation from the empty trace. *)
Definition outcome {A} (m : M A) : result A := fst (m []).
Definition calls {A} (m : M A) : trace := snd (m []).

(** [info] of [vantage6.algorithm.tools.util]: a log notice. *)
Definition info (msg : string) : M unit := emit (Info msg).

(** [float(n)] for a Python int: the nearest double, [OverflowError] when
    the int is too large to convert. *)
Definition float_of_int (n : Z) : result float :=
  let f := float64.of_Z n in
  if float64.is_infinite f then Raise OverflowError else Ok f.

(** [a / n] for a float [a] and an int [n]: the int is converted first,
    a zero divisor raises, otherwise the IEEE quotient is returned. *)
Definition truediv (a : float) (n : Z) : result float :=
  match float_of_int n with
  | Raise e => Raise e
  | Ok b => if float64.is_zero b then Raise ZeroDivisionError
            else Ok (float64.div a b)
  end.

(** ** The platform client *)

(** An entry of the collaboration's directory; the code reads its ["id"]. *)
Record organization : Type := Organization {
  org_id : Z;
  org_name : string
}.

Record task : Type := Task {
  task_id : Z
}.

(** A partial result, the dict [{"sum": ..., "count": ...}]. *)
Module Partial.
Record t : Type := mk { sum : float; count : Z }.
End Partial.

(** The global result, the dict [{"average": ...}]. *)
Record global_result : Type := Global { average : float }.

(** The answers of the platform: the directory, the task handle returned
    for a request, and the partial results delivered for a task id. *)
Record AlgorithmClient : Type := {
  organization_list_ : list organization;
  task_create_ : task_input -> list Z -> task;
  wait_for_results_ : Z -> list Partial.t
}.

Definition organization_list (client : AlgorithmClient) : M (list organization) :=
  bind (emit OrganizationList) (fun _ => ret (organization_list_ client)).

Definition task_create (client : AlgorithmClient) (input_ : task_input)
    (organizations : list Z) : M task :=
  bind (emit (TaskCreate input_ organizations))
       (fun _ => ret (task_create_ client input_ organizations)).

Definition wait_for_results (client : AlgorithmClient) (id : Z) : M (list Partial.t) :=
  bind (emit (WaitForResults id)) (fun _ => ret (wait_for_results_ client id)).

(** ** central_average *)

(** Truthiness of the [org_ids] argument: [None] and the empty list are
    falsy. *)
Definition truthy (org_ids : option (list Z)) : bool :=
  match org_ids with
  | None => false
  | Some [] => false
  | Some (_ :: _) => true
  end.

(** One turn of the loop [for output in results], on the pair of
    [global_sum] and [global_count]. *)
Definition accumulate (acc : float * Z) (output : Partial.t) : float * Z :=
  let '(global_sum, global_count) := acc in
  (float64.add global_sum (Partial.sum output),
   global_count + Partial.count output).

(** The loop, from [global_sum = 0], [global_count = 0].  The int [0] of
    [global_sum] is promoted to [0.0] by the first [+=] of a float, and
    [0 / 0] raises the same exception as [0.0 / 0], so the accumulator is
    a float throughout. *)
Definition reduce (results : list Partial.t) : float * Z :=
  fold_left accumulate results (float64.zero, 0).

Definition partial_request (column_name : string) (drop_na : bool) : task_input :=
  {| method := "partial_average";
     kwargs_ := {| kw_column_name := column_name; kw_drop_na := drop_na |} |}.

(** [central_average], with the client that the decorator
    [@algorithm_client] supplies.  [org_ids] is [None] or a list; when it
    is truthy it is a non-empty list and is left as it is. *)
Definition central_average (client : AlgorithmClient) (column_name : string)
    (org_ids : option (list Z)) (drop_na : bool) : M global_result :=
  org_ids ← (if negb (truthy org_ids) then
               info "Collecting participating organizations";;
               organizations ← organization_list client;
               mret (map org_id organizations)
             else
               mret (default [] org_ids));
  info "Requesting partial computation";;
  task ← task_create client (partial_request column_name drop_na) org_ids;
  info "Waiting for results";;
  results ← wait_for_results client (task_id task);
  info "Partial results are in!";;
  info "Computing global average";;
  let '(global_sum, global_count) := reduce results in
  average ← lift (truediv global_sum global_count);
  mret {| average := average |}.

(** ** The local dataset *)

(** The part of pandas the code uses, on float64 columns: a missing value
    is a NaN entry.  A [DataFrame] maps each column name to its column;
    columns of other types (integers, summed in 64 bits, and values that
    are not numbers) are outside the model.  [Series.sum] leaves missing
    values out (its [skipna] default).  It is computed here as a
    left-to-right accumulation from [0.0]; the library replaces the
    missing entries by [0.0] and adds the entries in blocks and pairs, so
    for eight entries or more its roundings can differ from these.
    [float_sum_of] describes what the two ways of adding have in common,
    and sums that are exact are the same for both. *)
Module pd.

Abbreviation Series := (list float).
Abbreviation DataFrame := (gmap string (list float)).

(** [df[column_name]] *)
Definition getitem (df : DataFrame) (column_name : string) : result Series :=
  match df !! column_name with
  | Some numbers => Ok numbers
  | None => Raise (KeyError column_name)
  end.

Definition isna (x : float) : bool := float64.isnan x.
Definition notna (x : float) : bool := negb (isna x).

(** [numbers.dropna()] *)
Definition dropna (numbers : Series) : Series := List.filter notna numbers.

(** [numbers.sum()] *)
Definition sum (numbers : Series) : float :=
  fold_left (fun acc x => if isna x then acc else float64.add acc x)
            numbers float64.zero.

(** [len(numbers)] *)
Definition len (numbers : Series) : Z := Z.of_nat (length numbers).

End pd.

(** ** partial_average *)

(** [partial_average], with the local dataset that the decorator
    [@data(1)] supplies.  [float(numbers.sum())] is the sum itself, already
    a double. *)
Definition partial_average (df : pd.DataFrame) (column_name : string)
    (drop_na : bool) : M Partial.t :=
  info ("Extracting column " +:+ column_name);;
  numbers ← lift (pd.getitem df column_name);
  numbers ← (if drop_na then
               info "Dropping NaN values";;
               mret (pd.dropna numbers)
             else mret numbers);
  info "Computing partials";;
  let local_sum := pd.sum numbers in
  let local_count := pd.len numbers in
  mret {| Partial.sum := local_sum; Partial.count := local_count |}.

(** ** The notions the specification is stated with *)

(** The floating-point sum of a list of values, accumulated from [0.0]. *)
Definition float_sum (l : list float) : float :=
  fold_left float64.add l float64.zero.

(** The sum of a list of integers. *)
Definition int_sum (l : list Z) : Z := foldr Z.add 0 l.



(** The targets of the tasks created along a trace. *)
Definition dispatched (tr : trace) : list (list Z) :=
  flat_map (fun ev => match ev with
                      | TaskCreate _ organizations => [organizations]
                      | _ => []
                      end) tr.

(** ** Scenarios *)

Definition fixed_client (orgs : list organization) (results : list Partial.t)
    : AlgorithmClient :=
  {| organization_list_ := orgs;
     task_create_ := fun _ _ => {| task_id := 1 |};
     wait_for_results_ := fun _ => results |}.

Definition three_orgs : list organization :=
  [ {| org_id := 1; org_name := "a" |};
    {| org_id := 2; org_name := "b" |};
    {| org_id := 3; org_name := "c" |} ].

Definition ten_twenty : list Partial.t :=
  [ {| Partial.sum := float64.of_Z 10; Partial.count := 2 |};
    {| Partial.sum := float64.of_Z 20; Partial.count := 3 |} ].

Definition age_column : pd.DataFrame :=
  {[ "age" := [float64.of_Z 10; float64.nan; float64.of_Z 30] ]}.

Definition empty_site : list Partial.t :=
  [ {| Partial.sum := float64.zero; Partial.count := 0 |} ].

Definition site (s n : Z) : Partial.t :=
  {| Partial.sum := float64.of_Z s; Partial.count := n |}.

Definition cancelling : list Partial.t :=
  [ site (10 ^ 16) 1; site (- 10 ^ 16) 1; site 1 1 ].

Definition cancelling_reordered : list Partial.t :=
  [ site 1 1; site (- 10 ^ 16) 1; site (10 ^ 16) 1 ].

Definition ages : pd.DataFrame :=
  {[ "age" := [float64.of_Z 10; float64.of_Z 20; float64.of_Z 30] ]}.

Definition all_missing : pd.DataFrame :=
  {[ "age" := [float64.nan; float64.nan]; "height" := [] ]}.

(** The entries of a column that [partial_average] aggregates. *)
Definition remaining (numbers : pd.Series) (drop_na : bool) : pd.Series :=
  if drop_na then pd.dropna numbers else numbers.

(** ** Running the two functions *)

(** The list of organizations the request is addressed to. *)
Definition targets (client : AlgorithmClient) (org_ids : option (list Z)) : list Z :=
  if truthy org_ids then default [] org_ids
  else map org_id (organization_list_ client).

(** The partial results the platform delivers for the request. *)
Definition collected (client : AlgorithmClient) (column_name : string)
    (org_ids : option (list Z)) (drop_na : bool) : list Partial.t :=
  wait_for_results_ client
    (task_id (task_create_ client (partial_request column_name drop_na)
                           (targets client org_ids))).

(** The division that ends [central_average]. *)
Definition global_average (acc : float * Z) : result global_result :=
  match truediv (fst acc) (snd acc) with
  | Ok a => Ok {| average := a |}
  | Raise e => Raise e
  end.

(** The calls made to the platform along a trace, log notices left out. *)
Definition platform_calls (tr : trace) : trace :=
  List.filter (fun ev => match ev with Info _ => false | _ => true end) tr.

(** A float that is a binary64 value: a finite one has a canonical
    mantissa and an exponent in range. *)
Definition is_double (x : float) : bool :=
  valid_binary float64.prec float64.emax x.

(** An accumulator that is not [-0.0] and, when finite, has an exponent not
    below the smallest one. *)
Definition settled (x : float) : Prop :=
  match x with
  | S754_zero s => s = false
  | S754_finite _ _ e => float64.emin <= e
  | _ => True
  end.

(** The partial results are those of [partial_average] at the sites, in
    order. *)
Definition site_results (sites : list pd.DataFrame) (column_name : string)
    (drop_na : bool) (results : list Partial.t) : Prop :=
  Forall2 (fun df r => outcome (partial_average df column_name drop_na) = Ok r)
          sites results.

(** Every site holds the named column. *)
Definition site_columns (sites : list pd.DataFrame) (column_name : string)
    (columns : list pd.Series) : Prop :=
  Forall2 (fun df numbers => df !! column_name = Some numbers) sites columns.

(** Two sites and the dataset that pools their rows. *)
Definition pooled_ages : pd.DataFrame :=
  {[ "age" := [float64.of_Z 10; float64.of_Z 20; float64.of_Z 30;
               float64.of_Z 10; float64.nan; float64.of_Z 30] ]}.

(** [float_sum_of l x]: [x] is a floating-point sum of the entries of [l],
    obtained by binary64 additions that use every entry of [l] once, in
    some order and some grouping, possibly with further [0.0] terms.  The
    sequential accumulation from [0.0] is one such sum; a pairwise or
    blocked accumulation over a column whose missing entries were replaced
    by [0.0] is another. *)
Inductive float_sum_of : list float -> float -> Prop :=
  | sum_of_nil : float_sum_of [] float64.zero
  | sum_of_one (x : float) : float_sum_of [x] x
  | sum_of_add (l1 l2 : list float) (x1 x2 : float) :
      float_sum_of l1 x1 -> float_sum_of l2 x2 ->
      float_sum_of (l1 ++ l2) (float64.add x1 x2)
  | sum_of_perm (l l' : list float) (x : float) :
      Permutation l l' -> float_sum_of l x -> float_sum_of l' x.


(** A zero, a positive finite value or [+inf]. *)
Definition non_negative (x : float) : bool :=
  match x with
  | S754_zero _ => true
  | S754_infinity s | S754_finite s _ _ => negb s
  | S754_nan => false
  end.


Definition infinities_column : pd.DataFrame :=
  {[ "x" := [S754_infinity false; S754_infinity true; float64.nan] ]}.

(** Unfolds the monad's operations down to functions on traces. *)
Ltac run_py :=
  unfold mbind, M_bind, mret, M_ret, bind, ret, lift, raise, info, emit,
         organization_list, task_create, wait_for_results; cbn.

Lemma central_average_run client column_name org_ids drop_na tr :
  central_average client column_name org_ids drop_na tr =
  (global_average (reduce (collected client column_name org_ids drop_na)),
   tr ++ (if truthy org_ids then []
          else [Info "Collecting participating organizations"; OrganizationList])
      ++ [Info "Requesting partial computation";
          TaskCreate (partial_request column_name drop_na) (targets client org_ids);
          Info "Waiting for results";
          WaitForResults
            (task_id (task_create_ client (partial_request column_name drop_na)
                                   (targets client org_ids)));
          Info "Partial results are in!";
          Info "Computing global average"]).
Proof.
  unfold central_average, global_average, collected, targets.
  destruct (truthy org_ids); run_py;
    destruct (reduce _) as [global_sum global_count]; run_py;
    rewrite <- ?app_assoc; cbn;
    destruct (truediv global_sum global_count); reflexivity.
Qed.

Lemma reduce_from (results : list Partial.t) (s : float) (n : Z) :
  fold_left accumulate results (s, n) =
  (fold_left float64.add (map Partial.sum results) s,
   n + int_sum (map Partial.count results)).
Proof.
  revert s n. induction results as [|r results IH]; intros s n.
  - cbn. f_equal. lia.
  - cbn [fold_left map]. unfold accumulate at 2.
    rewrite IH. unfold int_sum. cbn [foldr]. f_equal. lia.
Qed.

Lemma reduce_sums (results : list Partial.t) :
  reduce results =
  (float_sum (map Partial.sum results), int_sum (map Partial.count results)).
Proof. unfold reduce. by rewrite reduce_from. Qed.

(** ** Facts about binary64 addition and conversion *)

Lemma add_comm (x y : float) : float64.add x y = float64.add y x.
Proof.
  unfold float64.add.
  destruct x as [[]|[]| |sx mx ex], y as [[]|[]| |sy my ey]; try reflexivity.
  cbn [SFadd]. by rewrite Z.min_comm, Z.add_comm.
Qed.

Lemma add_zero_l (x : float) : float64.add float64.zero x = float64.unsigned_zero x.
Proof. by destruct x as [[]|[]| |sx mx ex]. Qed.

Lemma add_unsigned_zero (x y : float) :
  float64.add (float64.unsigned_zero x) y = float64.add (float64.unsigned_zero y) x.
Proof.
  destruct x as [[]|[]| |sx mx ex], y as [[]|[]| |sy my ey]; try reflexivity;
    cbn [float64.unsigned_zero]; apply add_comm.
Qed.

(** Shifting a non-negative mantissa right keeps it non-negative. *)
Lemma shr_1_nonneg (mrs : shr_record) :
  0 <= shr_m mrs -> 0 <= shr_m (shr_1 mrs).
Proof.
  destruct mrs as [m r s]; cbn [shr_m].
  destruct m as [|[p|p|]|p]; cbn; lia.
Qed.

Lemma iter_shr_1_nonneg (p : positive) (mrs : shr_record) :
  0 <= shr_m mrs -> 0 <= shr_m (SpecFloat.iter_pos shr_1 p mrs).
Proof.
  revert mrs. induction p as [p IH|p IH|]; intros mrs H; cbn [SpecFloat.iter_pos].
  - apply IH, IH, shr_1_nonneg, H.
  - apply IH, IH, H.
  - apply shr_1_nonneg, H.
Qed.

Lemma shr_record_of_loc_m (m : Z) (l : location) :
  shr_m (shr_record_of_loc m l) = m.
Proof. by destruct l as [|[]]. Qed.

Lemma shr_fexp_nonneg (m e : Z) (l : location) :
  0 <= m -> 0 <= shr_m (fst (shr_fexp float64.prec float64.emax m e l)).
Proof.
  intros H. unfold shr_fexp, shr.
  destruct (_ - e) as [|p|p]; cbn [fst];
    try apply iter_shr_1_nonneg; by rewrite shr_record_of_loc_m.
Qed.

Lemma round_nearest_even_nonneg (m : Z) (l : location) :
  0 <= m -> 0 <= round_nearest_even m l.
Proof.
  intros H. destruct l as [|[]]; cbn [round_nearest_even]; try lia.
  destruct (Z.even m); lia.
Qed.

Lemma binary_round_aux_not_nan (sx : bool) (m e : Z) (l : location) :
  0 <= m ->
  float64.isnan (binary_round_aux float64.prec float64.emax sx m e l) = false.
Proof.
  intros H. unfold binary_round_aux.
  pose proof (shr_fexp_nonneg m e l H) as H1.
  destruct (shr_fexp _ _ m e l) as [mrs' e']. cbn [fst] in H1.
  pose proof (shr_fexp_nonneg _ e' loc_Exact
                (round_nearest_even_nonneg _ (loc_of_shr_record mrs') H1)) as H2.
  destruct (shr_fexp _ _ _ e' loc_Exact) as [mrs'' e'']. cbn [fst] in H2.
  destruct (shr_m mrs'') as [|q|q]; [done| |lia].
  by destruct (e'' <=? _).
Qed.

Lemma binary_normalize_not_nan (m e : Z) :
  float64.isnan (binary_normalize float64.prec float64.emax m e false) = false.
Proof.
  destruct m as [|p|p]; [done| |]; cbn [binary_normalize]; unfold binary_round;
    destruct (shl_align _ _ _) as [mz ez]; by apply binary_round_aux_not_nan.
Qed.

(** Adding a finite value to a sum that is not NaN does not produce NaN. *)
Lemma add_finite_not_nan (x y : float) :
  float64.isnan x = false -> float64.is_finite y = true ->
  float64.isnan (float64.add x y) = false.
Proof.
  destruct x as [[]|[]| |sx mx ex], y as [[]|[]| |sy my ey]; try done.
  intros _ _. unfold float64.add. cbn [SFadd]. apply binary_normalize_not_nan.
Qed.

Lemma digits2_pos_size (p : positive) : digits2_pos p = Pos.size p.
Proof. induction p as [p IH|p IH|]; cbn; by rewrite ?IH. Qed.

(** A positive number of [d] binary digits lies in [[2^(d-1), 2^d)]. *)
Lemma digits2_pos_bounds (p : positive) :
  2 ^ (Z.pos (digits2_pos p) - 1) <= Z.pos p < 2 ^ Z.pos (digits2_pos p).
Proof.
  rewrite digits2_pos_size. split.
  - pose proof (Pos.size_le p) as H.
    apply Pos2Z.pos_le_pos in H. rewrite Pos2Z.inj_pow in H.
    replace (Z.pos (Pos.size p)) with (1 + (Z.pos (Pos.size p) - 1)) in H by lia.
    rewrite Z.pow_add_r in H by lia. lia.
  - pose proof (Pos.size_gt p) as H.
    apply Pos2Z.pos_lt_pos in H. by rewrite Pos2Z.inj_pow in H.
Qed.

Lemma shr_1_div2 (mrs : shr_record) :
  0 <= shr_m mrs -> shr_m (shr_1 mrs) = shr_m mrs / 2.
Proof.
  destruct mrs as [m r s]; cbn [shr_m].
  destruct m as [|[p|p|]|p]; intros H; try lia; cbn [shr_1 shr_m]; try done.
  - rewrite Pos2Z.inj_xI. apply Z.div_unique with 1; lia.
  - rewrite Pos2Z.inj_xO. apply Z.div_unique with 0; lia.
Qed.

Lemma iter_shr_1_div (p : positive) (mrs : shr_record) :
  0 <= shr_m mrs ->
  shr_m (SpecFloat.iter_pos shr_1 p mrs) = shr_m mrs / 2 ^ Z.pos p.
Proof.
  revert mrs. induction p as [p IH|p IH|]; intros mrs H; cbn [SpecFloat.iter_pos].
  - rewrite IH, IH, shr_1_div2 by auto using iter_shr_1_nonneg, shr_1_nonneg.
    rewrite !Z.div_div by lia. f_equal.
    replace (Z.pos p~1) with (1 + Z.pos p + Z.pos p) by lia.
    rewrite !Z.pow_add_r by lia. change (2 ^ 1) with 2. ring.
  - rewrite IH, IH by auto using iter_shr_1_nonneg.
    rewrite !Z.div_div by lia. f_equal.
    replace (Z.pos p~0) with (Z.pos p + Z.pos p) by lia.
    by rewrite Z.pow_add_r by lia.
  - by apply shr_1_div2.
Qed.

(** Above the smallest exponent, rounding never shifts a positive
    mantissa away entirely. *)
Lemma shr_fexp_pos (m e : Z) (l : location) :
  0 < m -> float64.emin <= e ->
  0 < shr_m (fst (shr_fexp float64.prec float64.emax m e l)) /\
  float64.emin <= snd (shr_fexp float64.prec float64.emax m e l).
Proof.
  intros Hm He. unfold shr_fexp, shr.
  destruct m as [|m|m]; try lia. cbn [Zdigits2].
  pose proof (digits2_pos_bounds m) as [Hlo _].
  set (d := Z.pos (digits2_pos m)) in *.
  assert (Hn : fexp float64.prec float64.emax (d + e) - e
               = Z.max (d - 53) (float64.emin - e)).
  { unfold fexp. fold float64.emin. unfold float64.prec. lia. }
  rewrite Hn.
  destruct (Z.max (d - 53) (float64.emin - e)) as [|p|p] eqn:Hp; cbn [fst snd];
    rewrite ?shr_record_of_loc_m; try (split; lia).
  rewrite iter_shr_1_div by (rewrite shr_record_of_loc_m; lia).
  rewrite shr_record_of_loc_m. split; [|lia].
  apply Z.div_str_pos. split; [lia|].
  etransitivity; [|exact Hlo].
  apply Z.pow_le_mono_r; lia.
Qed.

Lemma round_nearest_even_ge (m : Z) (l : location) :
  m <= round_nearest_even m l.
Proof.
  destruct l as [|[]]; cbn [round_nearest_even]; try lia.
  destruct (Z.even m); lia.
Qed.

Lemma binary_round_aux_nonzero (sx : bool) (m e : Z) (l : location) :
  0 < m -> float64.emin <= e ->
  float64.is_zero (binary_round_aux float64.prec float64.emax sx m e l) = false.
Proof.
  intros Hm He. unfold binary_round_aux.
  destruct (shr_fexp_pos m e l Hm He) as [H1 H1'].
  destruct (shr_fexp _ _ m e l) as [mrs' e']. cbn [fst snd] in H1, H1'.
  pose proof (round_nearest_even_ge (shr_m mrs') (loc_of_shr_record mrs')) as Hr.
  destruct (shr_fexp_pos (round_nearest_even (shr_m mrs') (loc_of_shr_record mrs'))
              e' loc_Exact) as [H2 _]; [lia|done|].
  destruct (shr_fexp _ _ _ e' loc_Exact) as [mrs'' e'']. cbn [fst] in H2.
  destruct (shr_m mrs'') as [|q|q]; [lia| |done].
  by destruct (e'' <=? _).
Qed.

Lemma shl_align_exponent (mx : positive) (ex ex' : Z) :
  snd (shl_align mx ex ex') = Z.min ex ex'.
Proof.
  unfold shl_align. destruct (ex' - ex) as [|d|d] eqn:H; cbn [snd]; lia.
Qed.

Lemma binary_round_nonzero (sx : bool) (m : positive) (e : Z) :
  float64.emin <= e ->
  float64.is_zero (binary_round float64.prec float64.emax sx m e) = false.
Proof.
  intros He. unfold binary_round.
  pose proof (shl_align_exponent m e
                (fexp float64.prec float64.emax (Z.pos (digits2_pos m) + e))) as Hs.
  destruct (shl_align _ _ _) as [mz ez]. cbn [snd] in Hs.
  apply binary_round_aux_nonzero; [lia|].
  subst ez. unfold fexp. fold float64.emin. lia.
Qed.

(** A nonzero integer never converts to a zero. *)
Lemma of_Z_nonzero (n : Z) : n <> 0 -> float64.is_zero (float64.of_Z n) = false.
Proof.
  intros Hn. unfold float64.of_Z.
  destruct n as [|p|p]; [done| |]; cbn [binary_normalize];
    by apply binary_round_nonzero.
Qed.

(** What rounding does to a positive mantissa above the smallest
    exponent: the exponent is raised until at most 53 digits remain. *)
Lemma shr_fexp_spec (m e : Z) (l : location) :
  0 < m -> float64.emin <= e ->
  snd (shr_fexp float64.prec float64.emax m e l) = Z.max e (Zdigits2 m + e - 53) /\
  shr_m (fst (shr_fexp float64.prec float64.emax m e l))
  = m / 2 ^ (Z.max e (Zdigits2 m + e - 53) - e).
Proof.
  intros Hm He. unfold shr_fexp, shr.
  assert (Hn : fexp float64.prec float64.emax (Zdigits2 m + e) - e
               = Z.max (Zdigits2 m - 53) (float64.emin - e)).
  { unfold fexp. fold float64.emin. unfold float64.prec. lia. }
  rewrite Hn.
  destruct (Z.max (Zdigits2 m - 53) (float64.emin - e)) as [|p|p] eqn:Hp;
    cbn [fst snd]; rewrite ?shr_record_of_loc_m.
  - replace (Z.max e (Zdigits2 m + e - 53) - e) with 0 by lia.
    rewrite Z.div_1_r. split; lia.
  - rewrite iter_shr_1_div by (rewrite shr_record_of_loc_m; lia).
    rewrite shr_record_of_loc_m.
    replace (Z.max e (Zdigits2 m + e - 53) - e) with (Z.pos p) by lia.
    split; lia.
  - replace (Z.max e (Zdigits2 m + e - 53) - e) with 0 by lia.
    rewrite Z.div_1_r. split; lia.
Qed.

Lemma Zdigits2_le (m k : Z) : 0 < m -> m < 2 ^ k -> Zdigits2 m <= k.
Proof.
  intros Hm Hk. destruct m as [|p|p]; try lia. cbn [Zdigits2].
  pose proof (digits2_pos_bounds p) as [Hlo _].
  destruct (Z_lt_le_dec k 0) as [Hneg|Hnn].
  { rewrite Z.pow_neg_r in Hk by lia. lia. }
  apply Z.lt_succ_r, Z.lt_pred_lt_succ.
  apply (Z.pow_lt_mono_r_iff 2); [lia|lia|]. 
  replace (Z.pred (Z.pos (digits2_pos p))) with (Z.pos (digits2_pos p) - 1) by lia.
  lia.
Qed.

Lemma Zdigits2_bounds (m : Z) :
  0 < m -> 2 ^ (Zdigits2 m - 1) <= m < 2 ^ Zdigits2 m.
Proof. destruct m as [|p|p]; try lia. intros _. apply digits2_pos_bounds. Qed.

Lemma binary_round_aux_finite (sx : bool) (m e : Z) (l : location) :
  0 < m -> float64.emin <= e -> e <= 970 -> Zdigits2 m + e <= 1023 ->
  float64.is_infinite (binary_round_aux float64.prec float64.emax sx m e l) = false.
Proof.
  intros Hm He He' Hd. unfold binary_round_aux.
  destruct (shr_fexp_spec m e l Hm He) as [E1 M1].
  destruct (shr_fexp_pos m e l Hm He) as [P1 _].
  destruct (shr_fexp _ _ m e l) as [mrs' e']. cbn [fst snd] in E1, M1, P1.
  set (m2 := round_nearest_even (shr_m mrs') (loc_of_shr_record mrs')).
  assert (Hm1 : shr_m mrs' < 2 ^ 53).
  { rewrite M1. pose proof (Zdigits2_bounds m Hm) as [_ Hhi].
    apply Z.div_lt_upper_bound; [apply Z.pow_pos_nonneg; lia|].
    rewrite <- Z.pow_add_r by lia.
    eapply Z.lt_le_trans; [exact Hhi|]. apply Z.pow_le_mono_r; lia. }
  assert (Hm2 : 0 < m2 < 2 ^ 54).
  { subst m2. split.
    - pose proof (round_nearest_even_ge (shr_m mrs') (loc_of_shr_record mrs')). lia.
    - change (2 ^ 54) with (2 * 2 ^ 53).
      destruct (loc_of_shr_record mrs') as [|[]]; cbn [round_nearest_even];
        try destruct (Z.even _); lia. }
  destruct (shr_fexp_spec m2 e' loc_Exact) as [E2 _]; [lia|lia|].
  pose proof (Zdigits2_le m2 54 ltac:(lia) ltac:(lia)) as Hd2.
  destruct (shr_fexp _ _ m2 e' loc_Exact) as [mrs'' e'']. cbn [snd] in E2.
  destruct (shr_m mrs'') as [|q|q]; try done.
  unfold float64.emax, float64.prec.
  destruct (Z.leb_spec e'' (1024 - 53)); [done|lia].
Qed.

Lemma digits2_pos_iter_xO (m d : positive) :
  Z.pos (digits2_pos (Pos.iter xO m d)) = Z.pos (digits2_pos m) + Z.pos d.
Proof.
  induction d as [|d IH] using Pos.peano_ind.
  - cbn. lia.
  - rewrite Pos.iter_succ. cbn [digits2_pos]. lia.
Qed.

Lemma of_Z_finite (n : Z) :
  Z.abs n < 2 ^ 1023 -> float64.is_infinite (float64.of_Z n) = false.
Proof.
  intros Hn. unfold float64.of_Z.
  assert (H : forall sx p, Z.pos p < 2 ^ 1023 ->
            float64.is_infinite (binary_round float64.prec float64.emax sx p 0) = false).
  { intros sx p Hp. unfold binary_round.
    pose proof (Zdigits2_le (Z.pos p) 1023 ltac:(lia) Hp) as Hd. cbn [Zdigits2] in Hd.
    assert (Ht : fexp float64.prec float64.emax (Z.pos (digits2_pos p) + 0)
                 = Z.pos (digits2_pos p) - 53).
    { unfold fexp, float64.prec, float64.emax, SpecFloat.emin. lia. }
    rewrite Ht. unfold shl_align.
    destruct (Z.pos (digits2_pos p) - 53 - 0) as [|d|d] eqn:Hs;
      apply binary_round_aux_finite; cbn [Zdigits2];
      rewrite ?digits2_pos_iter_xO; unfold float64.emin, SpecFloat.emin,
        float64.prec, float64.emax; lia. }
  destruct n as [|p|p]; [done| |]; cbn [binary_normalize]; apply H; lia.
Qed.

(** [float(n)] succeeds on every int below [2^1023] in magnitude. *)
Lemma float_of_int_ok (n : Z) :
  Z.abs n < 2 ^ 1023 -> float_of_int n = Ok (float64.of_Z n).
Proof. intros H. unfold float_of_int. by rewrite of_Z_finite. Qed.

(** *** Exact additions *)

Lemma iter_pos_iter {A} (f : A -> A) (p : positive) (x : A) :
  SpecFloat.iter_pos f p x = Pos.iter f x p.
Proof.
  revert x. induction p as [p IH|p IH|]; intros x; cbn [SpecFloat.iter_pos Pos.iter].
  - by rewrite !IH, !Pos.iter_swap.
  - by rewrite !IH.
  - done.
Qed.

Lemma iter_pos_succ {A} (f : A -> A) (p : positive) (x : A) :
  SpecFloat.iter_pos f (Pos.succ p) x = SpecFloat.iter_pos f p (f x).
Proof. by rewrite !iter_pos_iter, Pos.iter_succ, Pos.iter_swap. Qed.

Lemma iter_xO_succ (m d : positive) :
  Pos.iter xO m (Pos.succ d) = Pos.iter xO (m~0)%positive d.
Proof. by rewrite Pos.iter_succ, Pos.iter_swap. Qed.

Lemma fexp_xO (m : positive) (e : Z) :
  fexp float64.prec float64.emax (Z.pos (digits2_pos (m~0)%positive) + (e - 1))
  = fexp float64.prec float64.emax (Z.pos (digits2_pos m) + e).
Proof. cbn [digits2_pos]. f_equal. lia. Qed.

(** Doubling the mantissa and lowering the exponent by one is rounded to
    the same float. *)
Lemma binary_round_xO (sx : bool) (m : positive) (e : Z) :
  binary_round float64.prec float64.emax sx (m~0)%positive (e - 1)
  = binary_round float64.prec float64.emax sx m e.
Proof.
  unfold binary_round. rewrite fexp_xO.
  set (t := fexp float64.prec float64.emax (Z.pos (digits2_pos m) + e)).
  unfold shl_align.
  destruct (Z.compare_spec t (e - 1)) as [Heq|Hlt|Hgt].
  - replace (t - (e - 1)) with 0 by lia. replace (t - e) with (-1) by lia.
    cbn [Pos.iter]. by rewrite Heq.
  - destruct (t - (e - 1)) as [|d|d] eqn:Hd; try lia.
    destruct (t - e) as [|d'|d'] eqn:Hd'; try lia.
    assert (Hs : d' = Pos.succ d) by lia. rewrite Hs. by rewrite iter_xO_succ.
  - assert (Hfexp : fexp float64.prec float64.emax (Z.pos (digits2_pos (m~0)%positive) + (e - 1)) = t)
      by apply fexp_xO.
    destruct (t - (e - 1)) as [|d|d] eqn:Hd; try lia.
    destruct (t - e) as [|d'|d'] eqn:Hd'; try lia;
      unfold binary_round_aux, shr_fexp; cbn [Zdigits2];
      rewrite Hfexp; fold t; rewrite Hd, Hd'; unfold shr.
    + replace d with 1%positive by lia.
      cbn [SpecFloat.iter_pos shr_record_of_loc shr_1 orb].
      by replace (e - 1 + 1) with e by lia.
    + replace d with (Pos.succ d') by lia. rewrite iter_pos_succ.
      cbn [shr_record_of_loc shr_1 orb].
      by replace (e - 1 + Z.pos (Pos.succ d')) with (e + Z.pos d') by lia.
Qed.

Lemma binary_round_scaled (sx : bool) (j : Z) :
  0 <= j ->
  forall (p q : positive) (e : Z),
    Z.pos q = Z.pos p * 2 ^ j ->
    binary_round float64.prec float64.emax sx q (e - j)
    = binary_round float64.prec float64.emax sx p e.
Proof.
  intros Hj. pattern j. apply natlike_ind; [| |exact Hj]; clear j Hj.
  - intros p q e H. rewrite Z.mul_1_r in H. injection H as ->. by rewrite Z.sub_0_r.
  - intros j Hj IH p q e H. rewrite Z.pow_succ_r in H by lia.
    destruct q as [q|q|]; try lia.
    replace (e - Z.succ j) with (e - j - 1) by lia.
    rewrite binary_round_xO. apply IH. lia.
Qed.

Lemma binary_normalize_scaled (k j : Z) :
  0 <= j ->
  binary_normalize float64.prec float64.emax (k * 2 ^ j) (- j) false = float64.of_Z k.
Proof.
  intros Hj. unfold float64.of_Z.
  pose proof (Z.pow_pos_nonneg 2 j ltac:(lia) Hj) as Hpow.
  destruct k as [|p|p].
  - done.
  - destruct (Z.pos p * 2 ^ j) as [|q|q] eqn:Hq; try lia.
    cbn [binary_normalize]. by apply (binary_round_scaled false j Hj p q 0).
  - destruct (Z.neg p * 2 ^ j) as [|q|q] eqn:Hq; try lia.
    cbn [binary_normalize]. apply (binary_round_scaled true j Hj p q 0). lia.
Qed.

Lemma iter_xO_value (m d : positive) :
  Z.pos (Pos.iter xO m d) = Z.pos m * 2 ^ Z.pos d.
Proof.
  induction d as [|d IH] using Pos.peano_ind.
  - cbn [Pos.iter]. lia.
  - rewrite Pos.iter_succ, Pos2Z.inj_xO, IH, Pos2Z.inj_succ, Z.pow_succ_r by lia. ring.
Qed.

Lemma shl_align_value (m : positive) (e e' : Z) :
  Z.pos (fst (shl_align m e e')) = Z.pos m * 2 ^ (e - Z.min e e').
Proof.
  unfold shl_align. destruct (e' - e) as [|d|d] eqn:H; cbn [fst].
  - replace (e - Z.min e e') with 0 by lia. lia.
  - replace (e - Z.min e e') with 0 by lia. lia.
  - rewrite iter_xO_value. f_equal. f_equal. lia.
Qed.

(** Rounding leaves a mantissa of exactly 53 digits as it is. *)
Lemma binary_round_aux_canonical (sx : bool) (m : positive) (e : Z) :
  Z.pos (digits2_pos m) = 53 -> float64.emin <= e -> e <= 971 ->
  binary_round_aux float64.prec float64.emax sx (Z.pos m) e loc_Exact
  = S754_finite sx m e.
Proof.
  intros Hd Hlo Hhi.
  assert (Hn : forall e', e' = e ->
            fexp float64.prec float64.emax (Z.pos (digits2_pos m) + e') - e' = 0).
  { intros e' ->. rewrite Hd. unfold fexp. fold float64.emin.
    unfold float64.prec. lia. }
  unfold binary_round_aux, shr_fexp. cbn [Zdigits2].
  rewrite (Hn e eq_refl). cbn [shr shr_record_of_loc loc_of_shr_record
                               round_nearest_even shr_m Zdigits2].
  rewrite (Hn e eq_refl). cbn [shr shr_record_of_loc shr_m].
  unfold float64.emax, float64.prec.
  destruct (Z.leb_spec e (1024 - 53)); [done|lia].
Qed.

(** The float of a nonzero integer below [2^53] in magnitude holds that
    integer exactly. *)
Lemma of_Z_form (k : Z) :
  k <> 0 -> Z.abs k < 2 ^ 53 ->
  exists (m : positive) (e : Z),
    float64.of_Z k = S754_finite (k <? 0) m e /\ e <= 0 /\
    Z.pos m = Z.abs k * 2 ^ (- e).
Proof.
  intros Hk Hsmall.
  assert (H : forall sx p, Z.pos p < 2 ^ 53 ->
            exists m e, binary_round float64.prec float64.emax sx p 0
                        = S754_finite sx m e /\ e <= 0 /\
                        Z.pos m = Z.pos p * 2 ^ (- e)).
  { intros sx p Hp. unfold binary_round.
    pose proof (Zdigits2_le (Z.pos p) 53 ltac:(lia) Hp) as Hd. cbn [Zdigits2] in Hd.
    assert (Ht : fexp float64.prec float64.emax (Z.pos (digits2_pos p) + 0)
                 = Z.pos (digits2_pos p) - 53).
    { unfold fexp, float64.prec, float64.emax, SpecFloat.emin. lia. }
    rewrite Ht. unfold shl_align.
    destruct (Z.pos (digits2_pos p) - 53 - 0) as [|d|d] eqn:Hs; try lia.
    - exists p, 0. split; [|split; [lia|cbn; lia]].
      apply binary_round_aux_canonical; [lia|done|lia].
    - exists (Pos.iter xO p d), (Z.pos (digits2_pos p) - 53).
      split; [|split; [lia|]].
      + apply binary_round_aux_canonical.
        * rewrite digits2_pos_iter_xO. lia.
        * unfold float64.emin, SpecFloat.emin, float64.prec, float64.emax. lia.
        * lia.
      + rewrite iter_xO_value. f_equal. f_equal. lia. }
  unfold float64.of_Z. destruct k as [|p|p]; [done| |]; cbn [binary_normalize Z.ltb Z.compare].
  - apply H. lia.
  - apply (H true p). lia.
Qed.

Lemma cond_Zopp_scaled (k : Z) (m : positive) (j : Z) :
  Z.pos m = Z.abs k * 2 ^ j -> cond_Zopp (k <? 0) (Z.pos m) = k * 2 ^ j.
Proof.
  intros H. destruct k as [|p|p]; cbn [Z.ltb Z.compare cond_Zopp]; cbn in H; lia.
Qed.

(** Adding the floats of two integers below [2^53] in magnitude gives the
    float of their sum. *)
Lemma add_of_Z (a b : Z) :
  Z.abs a < 2 ^ 53 -> Z.abs b < 2 ^ 53 ->
  float64.add (float64.of_Z a) (float64.of_Z b) = float64.of_Z (a + b).
Proof.
  intros Ha Hb.
  destruct (Z.eq_dec a 0) as [->|Hna]; [|destruct (Z.eq_dec b 0) as [->|Hnb]].
  - rewrite Z.add_0_l. change (float64.of_Z 0) with float64.zero. rewrite add_zero_l.
    destruct (Z.eq_dec b 0) as [->|Hnb]; [done|].
    by destruct (of_Z_form b Hnb Hb) as (m & e & -> & _).
  - rewrite Z.add_0_r. by destruct (of_Z_form a Hna Ha) as (m & e & -> & _).
  - destruct (of_Z_form a Hna Ha) as (ma & ea & -> & Hea & Hma).
    destruct (of_Z_form b Hnb Hb) as (mb & eb & -> & Heb & Hmb).
    unfold float64.add. cbn [SFadd].
    set (ez := Z.min ea eb).
    rewrite (cond_Zopp_scaled a _ (- ez)), (cond_Zopp_scaled b _ (- ez)).
    + rewrite <- Z.mul_add_distr_r.
      pose proof (binary_normalize_scaled (a + b) (- ez) ltac:(lia)) as H.
      by rewrite Z.opp_involutive in H.
    + rewrite shl_align_value, Hmb. fold ez. rewrite <- Z.mul_assoc, <- Z.pow_add_r by lia.
      f_equal. f_equal. lia.
    + rewrite shl_align_value, Hma.
      replace (Z.min ea ez) with ez by lia.
      rewrite <- Z.mul_assoc, <- Z.pow_add_r by lia.
      f_equal. f_equal. lia.
Qed.

Lemma int_sum_cons (k : Z) (ks : list Z) : int_sum (k :: ks) = k + int_sum ks.
Proof. reflexivity. Qed.

Lemma int_sum_abs_nonneg (ks : list Z) : 0 <= int_sum (map Z.abs ks).
Proof.
  induction ks as [|k ks IH]; [done|].
  cbn [map]. rewrite int_sum_cons. lia.
Qed.

Lemma float_sum_of_Z_from (ks : list Z) (a : Z) :
  Z.abs a + int_sum (map Z.abs ks) < 2 ^ 53 ->
  fold_left float64.add (map float64.of_Z ks) (float64.of_Z a)
  = float64.of_Z (a + int_sum ks).
Proof.
  revert a. induction ks as [|k ks IH]; intros a H.
  - cbn. by rewrite Z.add_0_r.
  - cbn [map fold_left] in *. rewrite int_sum_cons in *.
    pose proof (int_sum_abs_nonneg ks).
    rewrite add_of_Z, IH by lia. f_equal. lia.
Qed.

(** The float sum of integers whose magnitudes total less than [2^53] is
    exact. *)
Lemma float_sum_of_Z (ks : list Z) :
  int_sum (map Z.abs ks) < 2 ^ 53 ->
  float_sum (map float64.of_Z ks) = float64.of_Z (int_sum ks).
Proof.
  intros H. unfold float_sum. change float64.zero with (float64.of_Z 0).
  rewrite float_sum_of_Z_from; [done|]. cbn [Z.abs]. lia.
Qed.

Lemma int_sum_permutation (l l' : list Z) :
  Permutation l l' -> int_sum l = int_sum l'.
Proof.
  induction 1; rewrite ?int_sum_cons; lia.
Qed.

Lemma float_sum_two (x y : float) : float_sum [x; y] = float_sum [y; x].
Proof.
  unfold float_sum. cbn [fold_left]. rewrite !add_zero_l. apply add_unsigned_zero.
Qed.

Lemma float_sum_permutation_short (l l' : list float) :
  Permutation l l' -> (length l <= 2)%nat -> float_sum l = float_sum l'.
Proof.
  intros Hp Hlen.
  destruct l as [|x [|y [|z l]]]; cbn [length] in Hlen; try lia.
  - by rewrite (Permutation_nil Hp).
  - by rewrite (Permutation_length_1_inv Hp).
  - destruct (Permutation_length_2_inv Hp) as [-> | ->]; [done|apply float_sum_two].
Qed.

Lemma float_sum_permutation_exact (l l' : list float) (ks : list Z) :
  Permutation l l' -> l = map float64.of_Z ks ->
  int_sum (map Z.abs ks) < 2 ^ 53 ->
  float_sum l = float_sum l'.
Proof.
  intros Hp -> Hsmall.
  apply Permutation_sym, Permutation_map_inv in Hp as (ks' & -> & Hks).
  rewrite !float_sum_of_Z.
  - f_equal. by apply int_sum_permutation.
  - by rewrite <- (int_sum_permutation _ _ (Permutation_map Z.abs Hks)).
  - done.
Qed.

(** ** Floating-point sums in any order *)

Lemma float_sum_of_fold (l done : list float) (acc : float) :
  float_sum_of done acc ->
  float_sum_of (done ++ l) (fold_left float64.add l acc).
Proof.
  revert done acc. induction l as [|x l IH]; intros done acc Hacc.
  - by rewrite app_nil_r.
  - cbn [fold_left]. rewrite (cons_middle x done l), app_assoc.
    apply IH. apply sum_of_add; [exact Hacc|apply sum_of_one].
Qed.

(** The sequential accumulation is a floating-point sum of the entries. *)
Lemma float_sum_of_float_sum (l : list float) : float_sum_of l (float_sum l).
Proof. apply (float_sum_of_fold l [] float64.zero), sum_of_nil. Qed.

Lemma binary_round_aux_non_negative (m e : Z) (l : location) :
  0 <= m ->
  non_negative (binary_round_aux float64.prec float64.emax false m e l) = true.
Proof.
  intros H. pose proof (binary_round_aux_not_nan false m e l H) as Hnan.
  unfold binary_round_aux in *.
  destruct (shr_fexp _ _ m e l) as [mrs' e'].
  destruct (shr_fexp _ _ _ e' loc_Exact) as [mrs'' e''].
  destruct (shr_m mrs'') as [|q|q]; [done| |done].
  by destruct (e'' <=? _).
Qed.

Lemma binary_normalize_non_negative (m e : Z) :
  0 <= m ->
  non_negative (binary_normalize float64.prec float64.emax m e false) = true.
Proof.
  intros H. destruct m as [|p|p]; [done| |lia]. cbn [binary_normalize].
  unfold binary_round. destruct (shl_align _ _ _) as [mz ez].
  by apply binary_round_aux_non_negative.
Qed.

Lemma add_non_negative (x y : float) :
  non_negative x = true -> non_negative y = true ->
  non_negative (float64.add x y) = true.
Proof.
  unfold float64.add.
  destruct x as [sx|sx| |sx mx ex], y as [sy|sy| |sy my ey];
    cbn [SFadd non_negative negb]; intros Hx Hy; try done.
  - by destruct sx, sy.
  - by destruct sx, sy.
  - destruct sx, sy; try done. cbn [cond_Zopp].
    apply binary_normalize_non_negative. lia.
Qed.

(** A floating-point sum of non-negative entries, in any order and
    grouping, is non-negative: in particular it is not NaN. *)
Lemma float_sum_of_non_negative (l : list float) (x : float) :
  float_sum_of l x -> Forall (fun y => non_negative y = true) l ->
  non_negative x = true.
Proof.
  induction 1 as [|y|l1 l2 x1 x2 _ IH1 _ IH2|l l' x Hp _ IH]; intros Hl.
  - done.
  - by inversion Hl.
  - apply Forall_app in Hl as [Hl1 Hl2]. by apply add_non_negative; auto.
  - apply IH. by rewrite Hp.
Qed.

Lemma non_negative_not_nan (x : float) :
  non_negative x = true -> float64.isnan x = false.
Proof. by destruct x. Qed.

(** ** Facts about the dataset operations *)

Lemma partial_average_run (df : pd.DataFrame) column_name drop_na tr :
  partial_average df column_name drop_na tr =
  match df !! column_name with
  | None => (Raise (KeyError column_name),
             tr ++ [Info ("Extracting column " +:+ column_name)])
  | Some numbers =>
      (Ok {| Partial.sum := pd.sum (remaining numbers drop_na);
             Partial.count := pd.len (remaining numbers drop_na) |},
       tr ++ [Info ("Extracting column " +:+ column_name)]
          ++ (if drop_na then [Info "Dropping NaN values"] else [])
          ++ [Info "Computing partials"])
  end.
Proof.
  unfold partial_average, pd.getitem, remaining.
  destruct (df !! column_name) as [numbers|]; run_py; [|done].
  destruct drop_na; run_py; by rewrite <- !app_assoc.
Qed.

Lemma sum_from (numbers : pd.Series) (acc : float) :
  fold_left (fun acc x => if pd.isna x then acc else float64.add acc x) numbers acc
  = fold_left float64.add (pd.dropna numbers) acc.
Proof.
  revert acc. induction numbers as [|x numbers IH]; intros acc; [done|].
  cbn [fold_left pd.dropna List.filter]. unfold pd.notna.
  destruct (pd.isna x); cbn [negb fold_left]; apply IH.
Qed.

(** [Series.sum] is the float sum of the entries that are present. *)
Lemma sum_dropna (numbers : pd.Series) :
  pd.sum numbers = float_sum (pd.dropna numbers).
Proof. apply sum_from. Qed.

Lemma dropna_all_present (numbers : pd.Series) :
  Forall (fun x => pd.isna x = false) numbers -> pd.dropna numbers = numbers.
Proof.
  induction 1 as [|x numbers Hx _ IH]; [done|].
  cbn [pd.dropna List.filter]. unfold pd.notna. rewrite Hx. cbn [negb].
  f_equal. exact IH.
Qed.

Lemma dropna_idemp (numbers : pd.Series) :
  pd.dropna (pd.dropna numbers) = pd.dropna numbers.
Proof.
  apply dropna_all_present, List.Forall_forall. intros x Hx.
  apply filter_In in Hx as [_ Hx]. unfold pd.notna in Hx.
  by destruct (pd.isna x).
Qed.



Lemma dropna_length (numbers : pd.Series) :
  pd.len numbers =
  pd.len (pd.dropna numbers) + pd.len (List.filter pd.isna numbers).
Proof.
  unfold pd.len, pd.dropna. induction numbers as [|x numbers IH]; [done|].
  cbn [List.filter]. unfold pd.notna at 1.
  destruct (pd.isna x); cbn [negb length]; lia.
Qed.

Lemma missing_count_pos (numbers : pd.Series) :
  Exists (fun x => pd.isna x = true) numbers ->
  0 < pd.len (List.filter pd.isna numbers).
Proof.
  unfold pd.len. induction 1 as [x numbers Hx|x numbers _ IH];
    cbn [List.filter]; [rewrite Hx; cbn [length]; lia|].
  destruct (pd.isna x); cbn [length]; lia.
Qed.

Lemma float_sum_not_nan (l : list float) (acc : float) :
  float64.isnan acc = false ->
  Forall (fun x => float64.is_finite x = true) l ->
  float64.isnan (fold_left float64.add l acc) = false.
Proof.
  intros Hacc Hl. revert acc Hacc.
  induction Hl as [|x l Hx _ IH]; intros acc Hacc; [done|].
  cbn [fold_left]. apply IH. by apply add_finite_not_nan.
Qed.

(** ** What a run of [central_average] returns and asks *)

Lemma central_average_outcome client column_name org_ids drop_na :
  outcome (central_average client column_name org_ids drop_na) =
  global_average (reduce (collected client column_name org_ids drop_na)).
Proof. unfold outcome. by rewrite central_average_run. Qed.

Lemma central_average_calls client column_name org_ids drop_na :
  dispatched (calls (central_average client column_name org_ids drop_na)) =
  [targets client org_ids].
Proof.
  unfold calls. rewrite central_average_run. by destruct (truthy org_ids).
Qed.

(** ** The claims of the specification *)

(** C1, as amended.  For every collection of partial results whose counts
    sum to a nonzero integer (below [2^1023] in magnitude, so that it
    converts to a float), [central_average] returns [{"average": a}] where
    [a] is the float sum of the "sum" fields, accumulated from [0.0] in the
    order of delivery, divided by the float of the summed "count" fields.
    For the two partials [{sum:10,count:2}] and [{sum:20,count:3}] the
    average is [6.0]. *)
Theorem central_average_value client column_name org_ids drop_na :
  int_sum (map Partial.count (collected client column_name org_ids drop_na)) <> 0 ->
  Z.abs (int_sum (map Partial.count (collected client column_name org_ids drop_na)))
    < 2 ^ 1023 ->
  outcome (central_average client column_name org_ids drop_na) =
  Ok {| average :=
          float64.div
            (float_sum (map Partial.sum (collected client column_name org_ids drop_na)))
            (float64.of_Z
               (int_sum (map Partial.count
                           (collected client column_name org_ids drop_na)))) |}.
Proof.
  intros Hnz Hsmall.
  rewrite central_average_outcome, reduce_sums.
  unfold global_average, truediv. cbn [fst snd].
  by rewrite float_of_int_ok, of_Z_nonzero.
Qed.

(** Scenario 1: two sites report [{sum:10,count:2}] and [{sum:20,count:3}];
    the global average is [6.0]. *)
Lemma central_average_value_witness :
  int_sum (map Partial.count
             (collected (fixed_client three_orgs ten_twenty) "age" None false)) <> 0 /\
  Z.abs (int_sum (map Partial.count
             (collected (fixed_client three_orgs ten_twenty) "age" None false)))
    < 2 ^ 1023 /\
  outcome (central_average (fixed_client three_orgs ten_twenty) "age" None false) =
  Ok {| average := float64.of_Z 6 |}.
Proof.
  split; [|split].
  - vm_compute. discriminate.
  - vm_compute. reflexivity.
  - rewrite (central_average_value (fixed_client three_orgs ten_twenty) "age" None false).
    + vm_compute. reflexivity.
    + vm_compute. discriminate.
    + vm_compute. reflexivity.
Defined.

(** C1 as first stated fails: a non-empty collection whose counts sum to
    zero makes [central_average] raise, so no average is returned. *)
Lemma central_average_nonempty_zero_count :
  collected (fixed_client three_orgs empty_site) "age" None false <> [] /\
  ~ exists a : float,
      outcome (central_average (fixed_client three_orgs empty_site) "age" None false)
      = Ok {| average := a |}.
Proof.
  split; [discriminate|]. intros [a H]. vm_compute in H. discriminate.
Qed.

(** C2.  When the counts of the collected partial results sum to zero,
    [central_average] raises the division-by-zero exception; nothing in it
    catches the exception or substitutes a value. *)
Theorem central_average_zero_count client column_name org_ids drop_na :
  int_sum (map Partial.count (collected client column_name org_ids drop_na)) = 0 ->
  outcome (central_average client column_name org_ids drop_na)
  = Raise ZeroDivisionError.
Proof.
  intros H. rewrite central_average_outcome, reduce_sums.
  unfold global_average, truediv. cbn [fst snd]. by rewrite H.
Qed.

(** Scenario 2: a single partial [{sum:0,count:0}], and no partial result
    at all. *)
Lemma central_average_zero_count_witness :
  outcome (central_average (fixed_client three_orgs empty_site) "age" None false)
  = Raise ZeroDivisionError
  /\ outcome (central_average (fixed_client three_orgs []) "age" None false)
     = Raise ZeroDivisionError.
Proof.
  split.
  - apply (central_average_zero_count (fixed_client three_orgs empty_site)).
    reflexivity.
  - apply (central_average_zero_count (fixed_client three_orgs [])).
    reflexivity.
Defined.






(** C5, as amended.  For every permutation of the collected partial
    results the global count is the same.  The global average is the same
    when at most two partial results are folded, and when every partial sum
    is the float of an integer and the magnitudes of these integers total
    less than [2^53], so that every float addition is exact.  (For three or
    more partial results in general the float sum depends on the order.) *)
Theorem aggregation_order client client' column_name org_ids drop_na :
  Permutation (collected client column_name org_ids drop_na)
              (collected client' column_name org_ids drop_na) ->
  snd (reduce (collected client column_name org_ids drop_na))
  = snd (reduce (collected client' column_name org_ids drop_na))
  /\ ((length (collected client column_name org_ids drop_na) <= 2)%nat
      \/ (exists ks : list Z,
            map Partial.sum (collected client column_name org_ids drop_na)
            = map float64.of_Z ks
            /\ int_sum (map Z.abs ks) < 2 ^ 53) ->
      outcome (central_average client column_name org_ids drop_na)
      = outcome (central_average client' column_name org_ids drop_na)).
Proof.
  intros Hp.
  assert (Hcount : int_sum (map Partial.count (collected client column_name org_ids drop_na))
                   = int_sum (map Partial.count
                                (collected client' column_name org_ids drop_na)))
    by (by apply int_sum_permutation, Permutation_map).
  rewrite !reduce_sums. cbn [snd]. split; [exact Hcount|].
  intros Horder. rewrite !central_average_outcome, !reduce_sums, Hcount.
  f_equal. f_equal.
  pose proof (Permutation_map Partial.sum Hp) as Hsums.
  destruct Horder as [Hshort | (ks & Hks & Hsmall)].
  - apply float_sum_permutation_short; [done|]. by rewrite length_map.
  - by apply (float_sum_permutation_exact _ _ ks).
Qed.

Lemma aggregation_order_witness :
  snd (reduce (collected (fixed_client three_orgs ten_twenty) "age" None false))
  = snd (reduce (collected (fixed_client three_orgs (rev ten_twenty)) "age" None false))
  /\ outcome (central_average (fixed_client three_orgs ten_twenty) "age" None false)
     = outcome (central_average (fixed_client three_orgs (rev ten_twenty)) "age" None false).
Proof.
  destruct (aggregation_order (fixed_client three_orgs ten_twenty)
              (fixed_client three_orgs (rev ten_twenty)) "age" None false) as [Hc Ha].
  - apply Permutation_rev.
  - split; [exact Hc|]. apply Ha. right. exists [10; 20]. split; [reflexivity|].
    vm_compute. reflexivity.
Defined.

(** C5 as first stated fails: the partial sums [1e16], [-1e16] and [1]
    give the average [1/3] in one order and [0] in another. *)
Lemma aggregation_order_differs :
  Permutation cancelling cancelling_reordered
  /\ outcome (central_average (fixed_client three_orgs cancelling) "age" None false)
     <> outcome (central_average (fixed_client three_orgs cancelling_reordered)
                                 "age" None false).
Proof.
  split.
  - unfold cancelling, cancelling_reordered.
    eapply perm_trans; [apply perm_skip, perm_swap|].
    eapply perm_trans; [apply perm_swap|].
    apply perm_skip, perm_swap.
  - vm_compute. discriminate.
Qed.

(** C6.  When an existing column has no entry left after the optional
    removal of missing values, [partial_average] returns
    [{"sum": 0.0, "count": 0}] and raises nothing. *)
Theorem partial_average_nothing_left (df : pd.DataFrame) column_name drop_na numbers :
  df !! column_name = Some numbers ->
  remaining numbers drop_na = [] ->
  outcome (partial_average df column_name drop_na) =
  Ok {| Partial.sum := float64.zero; Partial.count := 0 |}.
Proof.
  intros Hcol Hnone. unfold outcome.
  rewrite partial_average_run, Hcol. cbn [fst]. by rewrite Hnone.
Qed.

(** A column of missing values only, with [drop_na = True], and an empty
    column. *)
Lemma partial_average_nothing_left_witness :
  outcome (partial_average all_missing "age" true) =
  Ok {| Partial.sum := float64.zero; Partial.count := 0 |}
  /\ outcome (partial_average all_missing "height" false) =
     Ok {| Partial.sum := float64.zero; Partial.count := 0 |}.
Proof.
  split.
  - apply (partial_average_nothing_left all_missing "age" true
             [float64.nan; float64.nan]); reflexivity.
  - apply (partial_average_nothing_left all_missing "height" false []);
      reflexivity.
Defined.

(** C7.  When [column_name] is not a column of the dataset,
    [partial_average] fails with the lookup's exception (pandas'
    [KeyError], which the specification calls ColumnNotFoundError), having
    only logged the extraction notice: no sum or count is produced. *)
Theorem partial_average_missing_column (df : pd.DataFrame) column_name drop_na :
  df !! column_name = None ->
  outcome (partial_average df column_name drop_na) = Raise (KeyError column_name)
  /\ calls (partial_average df column_name drop_na)
     = [Info ("Extracting column " +:+ column_name)].
Proof.
  intros Hcol. unfold outcome, calls. by rewrite partial_average_run, Hcol.
Qed.

Lemma partial_average_missing_column_witness :
  outcome (partial_average age_column "weight" true) = Raise (KeyError "weight")
  /\ calls (partial_average age_column "weight" true)
     = [Info "Extracting column weight"].
Proof. apply (partial_average_missing_column age_column "weight" true). reflexivity. Defined.

(** C8, as amended.  [central_average] creates exactly one task, addressed
    to the resolved list.  Without an explicit list the resolved list is
    that of all organizations of the collaboration, obtained by the
    directory lookup; an explicit non-empty list is used as it is, and the
    directory is not consulted. *)
Theorem central_average_targets client column_name org_ids drop_na :
  dispatched (calls (central_average client column_name org_ids drop_na))
    = [targets client org_ids]
  /\ (org_ids = None ->
      targets client org_ids = map org_id (organization_list_ client)
      /\ In OrganizationList (calls (central_average client column_name org_ids drop_na)))
  /\ (forall ids, org_ids = Some ids -> ids <> [] ->
      targets client org_ids = ids
      /\ ~ In OrganizationList (calls (central_average client column_name org_ids drop_na))).
Proof.
  split; [apply central_average_calls|]. split.
  - intros ->. split; [done|].
    unfold calls. rewrite central_average_run. cbn. auto.
  - intros ids -> Hids. destruct ids as [|i ids]; [done|]. split; [done|].
    unfold calls. rewrite central_average_run. cbn. intuition discriminate.
Qed.

Lemma central_average_targets_witness :
  dispatched (calls (central_average (fixed_client three_orgs ten_twenty) "age"
                                     (Some [2; 3]) false)) = [[2; 3]]
  /\ ~ In OrganizationList
         (calls (central_average (fixed_client three_orgs ten_twenty) "age"
                                 (Some [2; 3]) false))
  /\ dispatched (calls (central_average (fixed_client three_orgs ten_twenty) "age"
                                        None false)) = [[1; 2; 3]].
Proof.
  destruct (central_average_targets (fixed_client three_orgs ten_twenty) "age"
              (Some [2; 3]) false) as (H1 & _ & H3).
  destruct (H3 [2; 3] eq_refl ltac:(discriminate)) as [_ H4].
  destruct (central_average_targets (fixed_client three_orgs ten_twenty) "age"
              None false) as (H5 & _ & _).
  split; [exact H1|]. split; [exact H4|exact H5].
Defined.

(** C8 as first stated fails: an explicit empty list is not used as it
    is; the task goes to the three organizations of the collaboration. *)
Lemma central_average_explicit_empty_list :
  dispatched (calls (central_average (fixed_client three_orgs ten_twenty) "age"
                                     (Some []) false)) = [[1; 2; 3]]
  /\ dispatched (calls (central_average (fixed_client three_orgs ten_twenty) "age"
                                        (Some []) false)) <> [[]].
Proof. split; [reflexivity|discriminate]. Qed.

(** C9, as amended.  When an existing column holds missing values,
    [partial_average] with [drop_na = False] returns a count that includes
    the rows with missing values, strictly more than the entries that are
    present, and a sum that is a floating-point sum of the present entries
    only.  The missing values do not make the sum NaN: it is not NaN when
    the present entries are non-negative, and it is their exact sum when
    they are the floats of integers whose magnitudes total less than
    [2^53].  (Present entries that cancel, such as both infinities, can
    still give NaN.) *)
Theorem partial_average_keeps_missing_rows (df : pd.DataFrame) column_name numbers :
  df !! column_name = Some numbers ->
  Exists (fun x => pd.isna x = true) numbers ->
  exists s : float,
    outcome (partial_average df column_name false)
    = Ok {| Partial.sum := s; Partial.count := Z.of_nat (length numbers) |}
    /\ Z.of_nat (length (pd.dropna numbers)) < Z.of_nat (length numbers)
    /\ float_sum_of (pd.dropna numbers) s
    /\ (Forall (fun x => non_negative x = true) (pd.dropna numbers) ->
        float64.isnan s = false)
    /\ (forall ks : list Z,
          pd.dropna numbers = map float64.of_Z ks ->
          int_sum (map Z.abs ks) < 2 ^ 53 ->
          s = float64.of_Z (int_sum ks)).
Proof.
  intros Hcol Hmissing. exists (float_sum (pd.dropna numbers)).
  split; [|split; [|split; [|split]]].
  - unfold outcome. rewrite partial_average_run, Hcol. cbn [fst remaining].
    by rewrite sum_dropna.
  - pose proof (dropna_length numbers) as Hlen.
    pose proof (missing_count_pos numbers Hmissing) as Hpos.
    unfold pd.len in *. lia.
  - apply float_sum_of_float_sum.
  - intros Hsign. apply non_negative_not_nan.
    eapply float_sum_of_non_negative; [apply float_sum_of_float_sum|exact Hsign].
  - intros ks -> Hsmall. by apply float_sum_of_Z.
Qed.

Lemma partial_average_keeps_missing_rows_witness :
  outcome (partial_average age_column "age" false) =
    Ok {| Partial.sum := float64.of_Z 40; Partial.count := 3 |}
  /\ (2 < 3)
  /\ float64.isnan (float64.of_Z 40) = false.
Proof.
  destruct (partial_average_keeps_missing_rows age_column "age"
              [float64.of_Z 10; float64.nan; float64.of_Z 30])
    as (s & Hout & Hcount & _ & Hnan & Hexact).
  - reflexivity.
  - right. left. reflexivity.
  - rewrite (Hexact [10; 30] eq_refl) in Hout, Hnan by (vm_compute; reflexivity).
    split; [exact Hout|]. split; [exact Hcount|]. apply Hnan. repeat constructor.
Defined.

(** C9 as first stated fails: in a column that holds both infinities and a
    missing value, the sum without dropping is NaN, and so is the site's
    average. *)
Lemma partial_average_infinities_nan :
  Exists (fun x => pd.isna x = true)
         [S754_infinity false; S754_infinity true; float64.nan]
  /\ outcome (partial_average infinities_column "x" false)
     = Ok {| Partial.sum := float64.nan; Partial.count := 3 |}
  /\ float64.isnan (float64.div float64.nan (float64.of_Z 3)) = true.
Proof.
  split; [right; right; left; reflexivity|]. split; vm_compute; reflexivity.
Qed.

(** C10, as amended.  An explicitly empty organization list is treated
    like an absent one: the directory is consulted and the task is
    addressed to every organization of the collaboration.  It is addressed
    to no organization only when the directory itself is empty. *)
Theorem central_average_falsy_org_ids client column_name org_ids drop_na :
  org_ids = None \/ org_ids = Some [] ->
  dispatched (calls (central_average client column_name org_ids drop_na))
    = [map org_id (organization_list_ client)]
  /\ In OrganizationList (calls (central_average client column_name org_ids drop_na))
  /\ (dispatched (calls (central_average client column_name org_ids drop_na)) = [[]]
      <-> organization_list_ client = []).
Proof.
  intros Hfalsy.
  assert (Ht : truthy org_ids = false) by (by destruct Hfalsy as [-> | ->]).
  rewrite central_average_calls. unfold targets, calls.
  rewrite central_average_run, Ht. split; [done|]. split; [cbn; auto|].
  destruct (organization_list_ client); split; intros; done.
Qed.

Lemma central_average_falsy_org_ids_witness :
  dispatched (calls (central_average (fixed_client three_orgs ten_twenty) "age"
                                     (Some []) false)) = [[1; 2; 3]]
  /\ In OrganizationList
        (calls (central_average (fixed_client three_orgs ten_twenty) "age"
                                (Some []) false))
  /\ (dispatched (calls (central_average (fixed_client three_orgs ten_twenty) "age"
                                         (Some []) false)) = [[]]
      <-> three_orgs = []).
Proof.
  apply (central_average_falsy_org_ids (fixed_client three_orgs ten_twenty) "age"
           (Some []) false).
  right. reflexivity.
Defined.

(** C10 as first stated fails: with an empty directory, the task for an
    explicitly empty list is addressed to no organization. *)
Lemma central_average_empty_directory :
  organization_list_ (fixed_client [] ten_twenty) = []
  /\ dispatched (calls (central_average (fixed_client [] ten_twenty) "age"
                                        (Some []) false)) = [[]].
Proof. split; reflexivity. Qed.

(** ** Further properties of [central_average] *)

Lemma truediv_zero_division (s : float) (n : Z) :
  truediv s n = Raise ZeroDivisionError <-> n = 0.
Proof.
  unfold truediv, float_of_int. split.
  - intros H. destruct (Z.eq_dec n 0) as [|Hn]; [done|].
    cbv zeta in H.
    destruct (float64.is_infinite (float64.of_Z n)); [done|].
    by rewrite (of_Z_nonzero n Hn) in H.
  - by intros ->.
Qed.

Lemma truediv_raise_sum (s s' : float) (n : Z) (e : exception) :
  truediv s n = Raise e -> truediv s' n = Raise e.
Proof.
  unfold truediv. destruct (float_of_int n) as [b|e']; [|done].
  by destruct (float64.is_zero b).
Qed.

Lemma global_average_raise (acc : float * Z) (e : exception) :
  global_average acc = Raise e <-> truediv (fst acc) (snd acc) = Raise e.
Proof.
  unfold global_average. destruct (truediv _ _); split; congruence.
Qed.

(** X1.  [central_average] raises the division-by-zero exception exactly
    when the counts of the collected partial results sum to zero, whatever
    the partial sums are. *)
Theorem central_average_zero_division_iff client column_name org_ids drop_na :
  outcome (central_average client column_name org_ids drop_na)
    = Raise ZeroDivisionError
  <-> int_sum (map Partial.count (collected client column_name org_ids drop_na)) = 0.
Proof.
  rewrite central_average_outcome, reduce_sums, global_average_raise.
  apply truediv_zero_division.
Qed.

(** An integer of at least [2^1024] in magnitude rounds to an infinity. *)
Lemma of_Z_infinite (n : Z) :
  2 ^ 1024 <= Z.abs n -> float64.is_infinite (float64.of_Z n) = true.
Proof.
  intros Hn. unfold float64.of_Z.
  assert (H : forall sx p, 2 ^ 1024 <= Z.pos p ->
            float64.is_infinite (binary_round float64.prec float64.emax sx p 0) = true).
  { intros sx p Hp. unfold binary_round.
    pose proof (digits2_pos_bounds p) as [_ Hhi].
    assert (Hd : 1025 <= Z.pos (digits2_pos p)).
    { destruct (Z_lt_le_dec (Z.pos (digits2_pos p)) 1025) as [Hlt|]; [|done].
      assert (2 ^ Z.pos (digits2_pos p) <= 2 ^ 1024) by (apply Z.pow_le_mono_r; lia).
      lia. }
    assert (Ht : fexp float64.prec float64.emax (Z.pos (digits2_pos p) + 0)
                 = Z.pos (digits2_pos p) - 53).
    { unfold fexp, float64.prec, float64.emax, SpecFloat.emin. lia. }
    rewrite Ht. unfold shl_align.
    destruct (Z.pos (digits2_pos p) - 53 - 0) as [|d|d] eqn:Hs; try lia.
    unfold binary_round_aux.
    assert (Hemin : float64.emin <= 0) by done.
    destruct (shr_fexp_spec (Z.pos p) 0 loc_Exact ltac:(lia) Hemin) as [E1 _].
    destruct (shr_fexp_pos (Z.pos p) 0 loc_Exact ltac:(lia) Hemin) as [P1 _].
    destruct (shr_fexp _ _ (Z.pos p) 0 loc_Exact) as [mrs' e'].
    cbn [fst snd Zdigits2] in E1, P1.
    pose proof (round_nearest_even_ge (shr_m mrs') (loc_of_shr_record mrs')) as Hr.
    assert (He' : float64.emin <= e') by lia.
    destruct (shr_fexp_spec (round_nearest_even (shr_m mrs') (loc_of_shr_record mrs'))
                e' loc_Exact ltac:(lia) He') as [E2 _].
    destruct (shr_fexp_pos (round_nearest_even (shr_m mrs') (loc_of_shr_record mrs'))
                e' loc_Exact ltac:(lia) He') as [P2 _].
    destruct (shr_fexp _ _ _ e' loc_Exact) as [mrs'' e'']. cbn [fst snd] in E2, P2.
    destruct (shr_m mrs'') as [|q|q]; try lia.
    unfold float64.emax, float64.prec.
    destruct (Z.leb_spec e'' (1024 - 53)); [lia|done]. }
  destruct n as [|p|p]; cbn [binary_normalize]; [cbn in Hn; lia| |]; apply H; lia.
Qed.

(** X2.  When the counts of the collected partial results sum to an
    integer of magnitude [2^1024] or more, the conversion of the count to a
    float fails and [central_average] raises [OverflowError]. *)
Theorem central_average_overflow client column_name org_ids drop_na :
  2 ^ 1024 <=
    Z.abs (int_sum (map Partial.count (collected client column_name org_ids drop_na))) ->
  outcome (central_average client column_name org_ids drop_na) = Raise OverflowError.
Proof.
  intros H. rewrite central_average_outcome, reduce_sums.
  unfold global_average, truediv, float_of_int. cbn [fst snd].
  by rewrite of_Z_infinite.
Qed.

Lemma central_average_overflow_witness :
  outcome (central_average
             (fixed_client three_orgs [site 1 (2 ^ 1023); site 1 (2 ^ 1023)])
             "age" None false) = Raise OverflowError.
Proof.
  apply (central_average_overflow
           (fixed_client three_orgs [site 1 (2 ^ 1023); site 1 (2 ^ 1023)])).
  vm_compute. discriminate.
Defined.

Lemma add_nan_r (x : float) : float64.add x float64.nan = float64.nan.
Proof. by destruct x as [[]|[]| |sx mx ex]. Qed.

Lemma fold_add_nan (l : list float) :
  fold_left float64.add l float64.nan = float64.nan.
Proof. induction l as [|x l IH]; [done|]. exact IH. Qed.

Lemma fold_add_with_nan (l : list float) (acc x : float) :
  In x l -> float64.isnan x = true -> fold_left float64.add l acc = float64.nan.
Proof.
  revert acc. induction l as [|y l IH]; intros acc Hin Hx; [done|].
  cbn [fold_left]. destruct Hin as [->|Hin]; [|by apply IH].
  destruct x; try done. change S754_nan with float64.nan.
  by rewrite add_nan_r, fold_add_nan.
Qed.

(** X3.  A single partial result whose sum is NaN makes the global average
    NaN, whatever the other partial results and their order, as long as the
    division itself succeeds. *)
Theorem central_average_nan_partial client column_name org_ids drop_na r :
  In r (collected client column_name org_ids drop_na) ->
  float64.isnan (Partial.sum r) = true ->
  int_sum (map Partial.count (collected client column_name org_ids drop_na)) <> 0 ->
  Z.abs (int_sum (map Partial.count (collected client column_name org_ids drop_na)))
    < 2 ^ 1023 ->
  outcome (central_average client column_name org_ids drop_na)
  = Ok {| average := float64.nan |}.
Proof.
  intros Hin Hnan Hnz Hsmall.
  rewrite central_average_outcome, reduce_sums.
  unfold global_average, truediv, float_sum. cbn [fst snd].
  rewrite float_of_int_ok, of_Z_nonzero by done.
  by rewrite (fold_add_with_nan _ _ (Partial.sum r) (in_map Partial.sum _ _ Hin) Hnan).
Qed.

Lemma central_average_nan_partial_witness :
  outcome (central_average
             (fixed_client three_orgs
                [site 10 2; {| Partial.sum := float64.nan; Partial.count := 1 |}; site 20 3])
             "age" None false)
  = Ok {| average := float64.nan |}.
Proof.
  apply (central_average_nan_partial
           (fixed_client three_orgs
              [site 10 2; {| Partial.sum := float64.nan; Partial.count := 1 |}; site 20 3])
           "age" None false {| Partial.sum := float64.nan; Partial.count := 1 |}).
  - right. left. reflexivity.
  - reflexivity.
  - vm_compute. discriminate.
  - vm_compute. reflexivity.
Defined.

(** X5.  Whether [central_average] fails, and with which exception, does
    not depend on the order in which the partial results are delivered. *)
Theorem central_average_failure_order client client' column_name org_ids drop_na e :
  Permutation (collected client column_name org_ids drop_na)
              (collected client' column_name org_ids drop_na) ->
  outcome (central_average client column_name org_ids drop_na) = Raise e <->
  outcome (central_average client' column_name org_ids drop_na) = Raise e.
Proof.
  intros Hp.
  assert (Hcount : int_sum (map Partial.count (collected client column_name org_ids drop_na))
                   = int_sum (map Partial.count
                                (collected client' column_name org_ids drop_na)))
    by (by apply int_sum_permutation, Permutation_map).
  rewrite !central_average_outcome, !reduce_sums, !global_average_raise, Hcount.
  cbn [fst snd]. split; apply truediv_raise_sum.
Qed.

Lemma central_average_failure_order_witness :
  outcome (central_average (fixed_client three_orgs [site 0 0; site 5 0])
                           "age" None false) = Raise ZeroDivisionError <->
  outcome (central_average (fixed_client three_orgs [site 5 0; site 0 0])
                           "age" None false) = Raise ZeroDivisionError.
Proof.
  apply (central_average_failure_order (fixed_client three_orgs [site 0 0; site 5 0])
           (fixed_client three_orgs [site 5 0; site 0 0])).
  apply perm_swap.
Defined.

(** X6.  What [central_average] asks of the platform, in order: the
    directory lookup when [org_ids] is falsy and not otherwise, then one
    task whose input names the method [partial_average] and carries
    [column_name] and [drop_na] as given, then one wait, on the id of the
    task just created.  This holds whether or not the final division
    raises. *)
Theorem central_average_protocol client column_name org_ids drop_na :
  platform_calls (calls (central_average client column_name org_ids drop_na))
  = (if truthy org_ids then [] else [OrganizationList])
    ++ [TaskCreate {| method := "partial_average";
                      kwargs_ := {| kw_column_name := column_name;
                                    kw_drop_na := drop_na |} |}
                   (targets client org_ids);
        WaitForResults
          (task_id (task_create_ client
                      {| method := "partial_average";
                         kwargs_ := {| kw_column_name := column_name;
                                       kw_drop_na := drop_na |} |}
                      (targets client org_ids)))].
Proof.
  unfold calls. rewrite central_average_run. by destruct (truthy org_ids).
Qed.

Lemma is_double_exponent (s : bool) (m : positive) (e : Z) :
  is_double (S754_finite s m e) = true -> float64.emin <= e.
Proof.
  unfold is_double, valid_binary, bounded, canonical_mantissa, fexp.
  fold float64.emin. intros H. apply andb_prop in H as [H _].
  apply Z.eqb_eq in H. lia.
Qed.

Lemma binary_round_aux_settled (sx : bool) (m e : Z) (l : location) :
  0 < m -> float64.emin <= e ->
  settled (binary_round_aux float64.prec float64.emax sx m e l).
Proof.
  intros Hm He. unfold binary_round_aux.
  destruct (shr_fexp_pos m e l Hm He) as [H1 H1'].
  destruct (shr_fexp _ _ m e l) as [mrs' e']. cbn [fst snd] in H1, H1'.
  pose proof (round_nearest_even_ge (shr_m mrs') (loc_of_shr_record mrs')) as Hr.
  destruct (shr_fexp_pos (round_nearest_even (shr_m mrs') (loc_of_shr_record mrs'))
              e' loc_Exact) as [H2 H2']; [lia|done|].
  destruct (shr_fexp _ _ _ e' loc_Exact) as [mrs'' e'']. cbn [fst snd] in H2, H2'.
  destruct (shr_m mrs'') as [|q|q]; [lia| |done].
  by destruct (e'' <=? _).
Qed.

Lemma binary_normalize_settled (m e : Z) :
  float64.emin <= e ->
  settled (binary_normalize float64.prec float64.emax m e false).
Proof.
  intros He. destruct m as [|p|p]; [done| |]; cbn [binary_normalize];
    unfold binary_round;
    pose proof (shl_align_exponent p e
                  (fexp float64.prec float64.emax (Z.pos (digits2_pos p) + e))) as Hs;
    destruct (shl_align _ _ _) as [mz ez]; cbn [snd] in Hs;
    (apply binary_round_aux_settled; [lia|]);
    subst ez; unfold fexp; fold float64.emin; lia.
Qed.

(** Adding a binary64 value keeps the accumulator settled. *)
Lemma add_settled (acc y : float) :
  settled acc -> is_double y = true -> settled (float64.add acc y).
Proof.
  intros Hacc Hy.
  unfold float64.add.
  destruct acc as [sa|sa| |sa ma ea], y as [sy|sy| |sy my ey];
    cbn [SFadd settled] in *; try done.
  - subst sa. by destruct sy.
  - by apply is_double_exponent in Hy.
  - by destruct sa, sy.
  - apply is_double_exponent in Hy.
    apply binary_normalize_settled. lia.
Qed.

Lemma fold_add_settled (l : list float) (acc : float) :
  settled acc -> Forall (fun x => is_double x = true) l ->
  settled (fold_left float64.add l acc).
Proof.
  intros Hacc Hl. revert acc Hacc.
  induction Hl as [|x l Hx _ IH]; intros acc Hacc; [done|].
  cbn [fold_left]. by apply IH, add_settled.
Qed.

Lemma add_zero_r_settled (acc : float) :
  settled acc -> float64.add acc float64.zero = acc.
Proof. destruct acc as [[]|[]| |s m e]; cbn; congruence. Qed.

(** X4.  A site that reports [{"sum": 0.0, "count": 0}] changes nothing:
    wherever its result arrives among the others, [central_average]
    returns what it returns without it (the partial sums received before
    it being binary64 values). *)
Theorem central_average_empty_site client client' column_name org_ids drop_na
    (before after : list Partial.t) :
  collected client column_name org_ids drop_na
  = before ++ {| Partial.sum := float64.zero; Partial.count := 0 |} :: after ->
  collected client' column_name org_ids drop_na = before ++ after ->
  Forall (fun r => is_double (Partial.sum r) = true) before ->
  outcome (central_average client column_name org_ids drop_na)
  = outcome (central_average client' column_name org_ids drop_na).
Proof.
  intros Hwith Hwithout Hdouble.
  rewrite !central_average_outcome, Hwith, Hwithout. f_equal.
  unfold reduce. rewrite !fold_left_app. cbn [fold_left]. f_equal.
  fold (reduce before). rewrite reduce_sums. unfold accumulate.
  rewrite Z.add_0_r. f_equal. cbn [Partial.sum].
  apply add_zero_r_settled, fold_add_settled; [done|].
  by apply Forall_map.
Qed.

Lemma central_average_empty_site_witness :
  outcome (central_average
             (fixed_client three_orgs
                [site 10 2; {| Partial.sum := float64.zero; Partial.count := 0 |};
                 site 20 3]) "age" None false)
  = outcome (central_average (fixed_client three_orgs [site 10 2; site 20 3])
                             "age" None false).
Proof.
  apply (central_average_empty_site
           (fixed_client three_orgs
              [site 10 2; {| Partial.sum := float64.zero; Partial.count := 0 |};
               site 20 3])
           (fixed_client three_orgs [site 10 2; site 20 3])
           "age" None false [site 10 2] [site 20 3]).
  - reflexivity.
  - reflexivity.
  - repeat constructor.
Defined.

(** ** Further properties of [partial_average] *)

Lemma filter_length_all {A} (f : A -> bool) (l : list A) :
  length (List.filter f l) = length l -> Forall (fun x => f x = true) l.
Proof.
  induction l as [|x l IH]; [constructor|].
  cbn [List.filter]. pose proof (List.filter_length_le f l) as Hle.
  destruct (f x) eqn:Hx; cbn [length]; intros H.
  - constructor; [done|]. apply IH. lia.
  - lia.
Qed.

(** X8.  On an existing column, [drop_na = True] and [drop_na = False]
    return the same partial result exactly when the column holds no
    missing value. *)
Theorem partial_average_flag_iff (df : pd.DataFrame) column_name numbers :
  df !! column_name = Some numbers ->
  outcome (partial_average df column_name true)
  = outcome (partial_average df column_name false)
  <-> Forall (fun x => pd.isna x = false) numbers.
Proof.
  intros Hcol. unfold outcome. rewrite !partial_average_run, Hcol.
  cbn [fst remaining]. split.
  - intros [= _ Hlen]. unfold pd.len in Hlen. apply Nat2Z.inj in Hlen.
    apply filter_length_all in Hlen.
    eapply Forall_impl; [exact Hlen|]. intros x Hx. cbn in Hx.
    unfold pd.notna in Hx. by destruct (pd.isna x).
  - intros Hpresent. by rewrite dropna_all_present.
Qed.

Lemma partial_average_flag_iff_witness :
  outcome (partial_average ages "age" true) = outcome (partial_average ages "age" false)
  <-> Forall (fun x => pd.isna x = false)
             [float64.of_Z 10; float64.of_Z 20; float64.of_Z 30].
Proof. apply (partial_average_flag_iff ages "age"). reflexivity. Defined.

Lemma remaining_dropna (numbers : pd.Series) (drop_na : bool) :
  pd.dropna (remaining numbers drop_na) = pd.dropna numbers.
Proof. destruct drop_na; [apply dropna_idemp|done]. Qed.

(** The sum [partial_average] returns for a column, whatever the flag. *)
Lemma sum_remaining (numbers : pd.Series) (drop_na : bool) :
  pd.sum (remaining numbers drop_na) = float_sum (pd.dropna numbers).
Proof. by rewrite sum_dropna, remaining_dropna. Qed.

(** X9.  On an existing column the flag changes the count by the number of
    missing entries: the count without dropping is the count with dropping
    plus the number of missing entries, and the count with dropping lies
    between zero and the number of rows.  With either setting the sum is a
    floating-point sum of the present entries only. *)
Theorem partial_average_flag_count (df : pd.DataFrame) column_name numbers :
  df !! column_name = Some numbers ->
  exists (s s' : float) (n : Z),
    outcome (partial_average df column_name true)
      = Ok {| Partial.sum := s; Partial.count := n |}
    /\ outcome (partial_average df column_name false)
      = Ok {| Partial.sum := s';
              Partial.count := n + Z.of_nat (length (List.filter pd.isna numbers)) |}
    /\ 0 <= n <= Z.of_nat (length numbers)
    /\ float_sum_of (pd.dropna numbers) s
    /\ float_sum_of (pd.dropna numbers) s'.
Proof.
  intros Hcol.
  exists (float_sum (pd.dropna numbers)), (float_sum (pd.dropna numbers)),
         (pd.len (pd.dropna numbers)).
  unfold outcome. rewrite !partial_average_run, Hcol. cbn [fst].
  rewrite !sum_remaining. cbn [remaining].
  pose proof (dropna_length numbers) as Hlen. unfold pd.len in *.
  split; [done|]. split; [by rewrite Hlen|]. split; [lia|].
  split; apply float_sum_of_float_sum.
Qed.

Lemma partial_average_flag_count_witness :
  exists (s s' : float) (n : Z),
    outcome (partial_average age_column "age" true)
      = Ok {| Partial.sum := s; Partial.count := n |}
    /\ outcome (partial_average age_column "age" false)
      = Ok {| Partial.sum := s'; Partial.count := n + 1 |}
    /\ 0 <= n <= 3
    /\ float_sum_of [float64.of_Z 10; float64.of_Z 30] s
    /\ float_sum_of [float64.of_Z 10; float64.of_Z 30] s'.
Proof.
  apply (partial_average_flag_count age_column "age"
           [float64.of_Z 10; float64.nan; float64.of_Z 30]).
  reflexivity.
Defined.

(** X10.  When the entries present in a column are the floats of integers
    whose magnitudes total less than [2^53], the sum [partial_average]
    returns is exact: it is the float of the integers' sum, for either
    setting of the flag. *)
Theorem partial_average_exact_sum (df : pd.DataFrame) column_name drop_na
    numbers (ks : list Z) :
  df !! column_name = Some numbers ->
  pd.dropna numbers = map float64.of_Z ks ->
  int_sum (map Z.abs ks) < 2 ^ 53 ->
  outcome (partial_average df column_name drop_na)
  = Ok {| Partial.sum := float64.of_Z (int_sum ks);
          Partial.count := Z.of_nat (length (remaining numbers drop_na)) |}.
Proof.
  intros Hcol Hints Hsmall. unfold outcome.
  rewrite partial_average_run, Hcol. cbn [fst].
  by rewrite sum_remaining, Hints, float_sum_of_Z.
Qed.

Lemma partial_average_exact_sum_witness :
  outcome (partial_average age_column "age" false)
  = Ok {| Partial.sum := float64.of_Z 40; Partial.count := 3 |}.
Proof.
  apply (partial_average_exact_sum age_column "age" false
           [float64.of_Z 10; float64.nan; float64.of_Z 30] [10; 30]).
  - reflexivity.
  - reflexivity.
  - vm_compute. reflexivity.
Defined.

(** ** [partial_average] at the sites, [central_average] over them *)

(** What a site returns for its column. *)
Lemma site_results_columns sites column_name drop_na columns results :
  site_columns sites column_name columns ->
  site_results sites column_name drop_na results ->
  results = map (fun numbers =>
                   {| Partial.sum := float_sum (pd.dropna numbers);
                      Partial.count := pd.len (remaining numbers drop_na) |}) columns.
Proof.
  unfold site_columns, site_results. intros Hcols. revert results.
  induction Hcols as [|df numbers sites columns Hcol _ IH]; intros results Hres.
  - by inversion Hres.
  - inversion Hres as [|? r ? results' Hr Hres']; subst. cbn [map].
    rewrite (IH results' Hres'). f_equal.
    unfold outcome in Hr. rewrite partial_average_run, Hcol in Hr.
    cbn [fst] in Hr. rewrite sum_remaining in Hr. congruence.
Qed.

Lemma int_sum_app (l l' : list Z) : int_sum (l ++ l') = int_sum l + int_sum l'.
Proof.
  induction l as [|k l IH]; [done|].
  rewrite <- app_comm_cons, !int_sum_cons, IH. lia.
Qed.

Lemma int_sum_concat (ls : list (list Z)) :
  int_sum (map int_sum ls) = int_sum (concat ls).
Proof.
  induction ls as [|l ls IH]; [done|].
  cbn [map concat]. by rewrite int_sum_cons, int_sum_app, IH.
Qed.

Lemma int_sum_zero_iff (l : list Z) :
  Forall (fun k => 0 <= k) l -> int_sum l = 0 <-> Forall (fun k => k = 0) l.
Proof.
  induction 1 as [|k l Hk Hl IH]; [by split|].
  rewrite int_sum_cons.
  assert (0 <= int_sum l).
  { clear - Hl. induction Hl as [|k l Hk _ IH]; [done|]. rewrite int_sum_cons. lia. }
  split.
  - intros Hsum. constructor; [lia|]. apply IH. lia.
  - intros Hall. inversion Hall as [|? ? -> Hall']; subst.
    apply IH in Hall'. lia.
Qed.

(** X11.  When the collected partial results are those [partial_average]
    returns at sites that all hold the column, [central_average] raises
    the division-by-zero exception exactly when no site has an entry left
    after the optional dropping of missing values. *)
Theorem central_average_fails_iff_sites_empty client column_name org_ids drop_na
    (sites : list pd.DataFrame) (columns : list pd.Series) :
  site_columns sites column_name columns ->
  site_results sites column_name drop_na (collected client column_name org_ids drop_na) ->
  outcome (central_average client column_name org_ids drop_na) = Raise ZeroDivisionError
  <-> Forall (fun numbers => remaining numbers drop_na = []) columns.
Proof.
  intros Hcols Hres.
  rewrite central_average_outcome, reduce_sums, global_average_raise.
  cbn [fst snd]. rewrite truediv_zero_division.
  rewrite (site_results_columns _ _ _ _ _ Hcols Hres), map_map. cbn [Partial.count].
  rewrite int_sum_zero_iff.
  - rewrite List.Forall_map. apply Forall_iff. intros numbers. unfold pd.len.
    destruct (remaining numbers drop_na); cbn [length]; split; intros; try done; lia.
  - apply List.Forall_map, Forall_forall. intros numbers _. unfold pd.len. lia.
Qed.

Lemma central_average_fails_iff_sites_empty_witness :
  outcome (central_average
             (fixed_client three_orgs
                [ {| Partial.sum := float64.zero; Partial.count := 0 |};
                  {| Partial.sum := float64.zero; Partial.count := 0 |} ])
             "age" None true) = Raise ZeroDivisionError
  <-> Forall (fun numbers => remaining numbers true = [])
             [[float64.nan; float64.nan]; [float64.nan; float64.nan]].
Proof.
  apply (central_average_fails_iff_sites_empty _ "age" None true
           [all_missing; all_missing]).
  - repeat constructor.
  - repeat constructor.
Defined.

Lemma unsigned_zero_of_Z (k : Z) :
  float64.unsigned_zero (float64.of_Z k) = float64.of_Z k.
Proof.
  destruct (Z.eq_dec k 0) as [->|Hk]; [done|].
  pose proof (of_Z_nonzero k Hk) as H. by destruct (float64.of_Z k).
Qed.

Lemma int_sum_abs_app (l l' : list Z) :
  int_sum (map Z.abs (l ++ l')) = int_sum (map Z.abs l) + int_sum (map Z.abs l').
Proof. by rewrite map_app, int_sum_app. Qed.

Lemma abs_int_sum_le (l : list Z) : Z.abs (int_sum l) <= int_sum (map Z.abs l).
Proof.
  induction l as [|k l IH]; [done|].
  cbn [map]. rewrite !int_sum_cons. lia.
Qed.

Lemma dropna_concat (columns : list pd.Series) :
  pd.dropna (concat columns) = concat (map pd.dropna columns).
Proof. unfold pd.dropna. symmetry. apply concat_filter_map. Qed.

Lemma remaining_concat (columns : list pd.Series) (drop_na : bool) :
  remaining (concat columns) drop_na
  = concat (map (fun numbers => remaining numbers drop_na) columns).
Proof.
  destruct drop_na; cbn [remaining]; [apply dropna_concat|].
  by rewrite map_id.
Qed.

Lemma len_concat (columns : list pd.Series) :
  pd.len (concat columns) = int_sum (map pd.len columns).
Proof.
  unfold pd.len. induction columns as [|numbers columns IH]; [done|].
  cbn [concat map]. rewrite length_app, int_sum_cons. lia.
Qed.

(** The present entries of integer-valued columns, site by site and
    pooled. *)
Lemma dropna_concat_ints (columns : list pd.Series) (ints : list (list Z)) :
  Forall2 (fun numbers ks => pd.dropna numbers = map float64.of_Z ks) columns ints ->
  pd.dropna (concat columns) = map float64.of_Z (concat ints).
Proof.
  intros H. rewrite dropna_concat.
  induction H as [|numbers ks columns ints Hks _ IH]; [done|].
  cbn [map concat]. by rewrite Hks, IH, map_app.
Qed.

Lemma site_sums_ints (columns : list pd.Series) (ints : list (list Z)) :
  Forall2 (fun numbers ks => pd.dropna numbers = map float64.of_Z ks) columns ints ->
  int_sum (map Z.abs (concat ints)) < 2 ^ 53 ->
  map (fun numbers => float_sum (pd.dropna numbers)) columns
  = map float64.of_Z (map int_sum ints)
  /\ int_sum (map Z.abs (map int_sum ints)) <= int_sum (map Z.abs (concat ints)).
Proof.
  induction 1 as [|numbers ks columns ints Hks _ IH]; intros Hsmall; [done|].
  cbn [concat] in Hsmall. rewrite int_sum_abs_app in Hsmall.
  pose proof (int_sum_abs_nonneg ks). pose proof (int_sum_abs_nonneg (concat ints)).
  destruct IH as [IH1 IH2]; [lia|].
  cbn [map concat]. rewrite int_sum_abs_app, int_sum_cons, IH1, Hks.
  rewrite float_sum_of_Z by lia. split; [done|].
  pose proof (abs_int_sum_le ks). lia.
Qed.

(** X12.  For integer-valued data (present entries the floats of integers
    whose magnitudes total less than [2^53]), the federated computation
    agrees with the pooled one: [central_average] over the partial results
    of the sites returns what it returns over the single partial result
    of one dataset holding all the sites' rows. *)
Theorem federated_average_pooled client pooled_client column_name org_ids drop_na
    (sites : list pd.DataFrame) (columns : list pd.Series) (ints : list (list Z))
    (pooled : pd.DataFrame) (r : Partial.t) :
  site_columns sites column_name columns ->
  site_results sites column_name drop_na (collected client column_name org_ids drop_na) ->
  Forall2 (fun numbers ks => pd.dropna numbers = map float64.of_Z ks) columns ints ->
  int_sum (map Z.abs (concat ints)) < 2 ^ 53 ->
  pooled !! column_name = Some (concat columns) ->
  outcome (partial_average pooled column_name drop_na) = Ok r ->
  collected pooled_client column_name org_ids drop_na = [r] ->
  outcome (central_average client column_name org_ids drop_na)
  = outcome (central_average pooled_client column_name org_ids drop_na).
Proof.
  intros Hcols Hres Hints Hsmall Hpooled Hr Hsingle.
  rewrite !central_average_outcome, Hsingle. f_equal.
  rewrite (site_results_columns _ _ _ _ _ Hcols Hres), !reduce_sums.
  destruct (site_sums_ints columns ints Hints Hsmall) as [Hsums Hbound].
  unfold outcome in Hr. rewrite partial_average_run, Hpooled in Hr.
  cbn [fst] in Hr. injection Hr as <-.
  rewrite !map_map. cbn [Partial.sum Partial.count map].
  rewrite Hsums, float_sum_of_Z by lia.
  rewrite sum_remaining, (dropna_concat_ints columns ints Hints).
  rewrite float_sum_of_Z by lia.
  unfold float_sum at 1. cbn [fold_left]. rewrite add_zero_l, unsigned_zero_of_Z.
  rewrite int_sum_concat. f_equal.
  rewrite remaining_concat, len_concat, map_map.
  rewrite int_sum_cons. cbn. lia.
Qed.

Lemma federated_average_pooled_witness :
  outcome (central_average (fixed_client three_orgs [site 60 3; site 40 3])
                           "age" None false)
  = outcome (central_average (fixed_client three_orgs [site 100 6]) "age" None false).
Proof.
  apply (federated_average_pooled
           (fixed_client three_orgs [site 60 3; site 40 3])
           (fixed_client three_orgs [site 100 6]) "age" None false
           [ages; age_column]
           [[float64.of_Z 10; float64.of_Z 20; float64.of_Z 30];
            [float64.of_Z 10; float64.nan; float64.of_Z 30]]
           [[10; 20; 30]; [10; 30]]
           pooled_ages (site 100 6)).
  - repeat constructor.
  - repeat constructor.
  - repeat constructor.
  - vm_compute. reflexivity.
  - reflexivity.
  - vm_compute. reflexivity.
  - reflexivity.
Defined.
